(** * routine: fan-out of shell commands over SSH (main.go)

    A shallow embedding of [ExecuteRemoteCommands] and of the helpers it is
    built from.  main.go is present in two versions: the one whose goroutine
    body does everything inline (module [Inline]) and the one refactored
    around [setupSSHClient] and [executeCommand] (module [Refactored]).

    - The SSH library, the file system and the network are a capability
      [Remote]: a record of functions giving the outcome of each call.  Every
      host goroutine has a capability of its own ([World] maps the position
      of a host in [config.Hosts] to it), so duplicate host names are
      independent targets.
    - A goroutine body is a computation in the state monad [Task]; its state
      is the number of sessions opened so far on its client and the trace of
      the calls it made, channel sends included.
    - Goroutines, the WaitGroup and the buffered channel are a transition
      system on [State], driven by a scheduler [Choice].  The state holds the
      arrays the function shares with its caller, behind [config.Hosts] and
      [commands]; an assignment to one of their elements is the event
      [EvStore], which changes them there. *)

From Stdlib Require Import List String Ascii Bool Arith ZArith Lia Permutation.
Import ListNotations.
Local Open Scope string_scope.
Local Open Scope list_scope.

Set Implicit Arguments.

(** String concatenation, Go's [+] on strings. *)
Infix "+:+" := String.append (right associativity, at level 60).

(** ** Go values *)

(** A Go [error]: [None] is nil, [Some msg] an error whose [Error()] is [msg]
    (all the code does with an error is format it with %v). *)
Definition error := option string.

(** A Go pair (value, error). *)
Inductive Result (A : Type) : Type :=
| Ok (a : A)
| Err (msg : string).
Arguments Err {A} msg.

Definition nl : string := String (ascii_of_nat 10) EmptyString.

Record SSHConfig := {
  Hosts : list string;
  Port : string;
  User : string;
  Password : string;
  KeyPath : string;
  Timeout : Z
}.

Record CommandResult := {
  Hostname : string;
  Output : string;
  Error : error
}.

(** [hostResult.Error = e] and [hostResult.Output = s] on a local struct. *)
Definition set_Error (hostResult : CommandResult) (e : string) : CommandResult :=
  {| Hostname := Hostname hostResult; Output := Output hostResult; Error := Some e |}.

Definition set_Output (hostResult : CommandResult) (s : string) : CommandResult :=
  {| Hostname := Hostname hostResult; Output := s; Error := Error hostResult |}.

(** ** The ssh package, as far as the program uses it *)

Definition Signer := string.
Definition Client := nat.
Definition Session := nat.
Definition Reader := nat.

Inductive AuthMethod :=
| PublicKeys (signer : Signer)
| PasswordAuth (secret : string).

Inductive HostKeyCallback := InsecureIgnoreHostKey.

Record ClientConfig := {
  ccUser : string;
  ccAuth : list AuthMethod;
  ccHostKeyCallback : HostKeyCallback;
  ccTimeout : Z
}.

(** What the outside world answers to the calls of one host goroutine.
    [ssh_NewSession c n] is the answer to the call number [n] (from 0) of
    [c.NewSession()]. *)
Record Remote := {
  os_ReadFile : string -> Result string;
  ssh_ParsePrivateKey : string -> Result Signer;
  ssh_Dial : string -> string -> ClientConfig -> Result Client;
  ssh_NewSession : Client -> nat -> Result Session;
  ssh_StdoutPipe : Session -> Result Reader;
  ssh_Start : Session -> string -> error;
  io_ReadAll : Reader -> string * error;
  ssh_Wait : Session -> error
}.

(** One capability per position in [config.Hosts]. *)
Definition World := nat -> Remote.

(** ** The calls a goroutine makes *)

(** The two arrays the function shares with its caller: the one behind
    [config.Hosts] and the one behind [commands]. *)
Inductive Input :=
| HostsArray
| CommandsArray.

Inductive Event :=
| EvReadFile (name : string)
| EvParsePrivateKey (pem : string)
| EvDial (network addr : string) (cc : ClientConfig)
| EvNewSession (c : Client)
| EvStdoutPipe (s : Session)
| EvStart (s : Session) (cmd : string)
| EvReadAll (rd : Reader)
| EvWait (s : Session)
| EvSessionClose (s : Session)
| EvClientClose (c : Client)
| EvSend (res : CommandResult)
| EvStore (a : Input) (i : nat) (v : string).   (* config.Hosts[i] = v, commands[i] = v *)

Record Local := {
  sessions : nat;
  trace : list Event
}.

Definition Task (A : Type) : Type := Local -> A * Local.

Definition ret {A} (a : A) : Task A := fun l => (a, l).

Definition bind {A B} (m : Task A) (k : A -> Task B) : Task B :=
  fun l => let (a, l') := m l in k a l'.

Notation "x <- m ;; k" := (bind m (fun x => k))
  (at level 61, m at next level, right associativity).
Notation "m ;;; k" := (bind m (fun _ => k))
  (at level 61, right associativity).

Definition perform (e : Event) : Task unit :=
  fun l => (tt, {| sessions := sessions l; trace := trace l ++ [e] |}).

Definition start : Local := {| sessions := 0; trace := [] |}.

Section Calls.
Variable r : Remote.

Definition ReadFile (name : string) : Task (Result string) :=
  perform (EvReadFile name) ;;; ret (os_ReadFile r name).

Definition ParsePrivateKey (pem : string) : Task (Result Signer) :=
  perform (EvParsePrivateKey pem) ;;; ret (ssh_ParsePrivateKey r pem).

Definition Dial (network addr : string) (cc : ClientConfig) : Task (Result Client) :=
  perform (EvDial network addr cc) ;;; ret (ssh_Dial r network addr cc).

Definition NewSession (c : Client) : Task (Result Session) :=
  fun l =>
    (ssh_NewSession r c (sessions l),
     {| sessions := S (sessions l); trace := trace l ++ [EvNewSession c] |}).

Definition StdoutPipe (s : Session) : Task (Result Reader) :=
  perform (EvStdoutPipe s) ;;; ret (ssh_StdoutPipe r s).

Definition Start (s : Session) (cmd : string) : Task error :=
  perform (EvStart s cmd) ;;; ret (ssh_Start r s cmd).

Definition ReadAll (rd : Reader) : Task (string * error) :=
  perform (EvReadAll rd) ;;; ret (io_ReadAll r rd).

Definition Wait (s : Session) : Task error :=
  perform (EvWait s) ;;; ret (ssh_Wait r s).

Definition SessionClose (s : Session) : Task unit := perform (EvSessionClose s).

Definition ClientClose (c : Client) : Task unit := perform (EvClientClose c).

(** [results <- hostResult] *)
Definition send (hostResult : CommandResult) : Task unit := perform (EvSend hostResult).
End Calls.

(** fmt.Sprintf("Command '%s' failed: %v\n", cmd, err) *)
Definition failed_note (cmd err : string) : string :=
  "Command '" +:+ cmd +:+ "' failed: " +:+ err +:+ nl.

(** fmt.Sprintf("Command '%s' output:\n%s\n", cmd, out) *)
Definition labeled_output (cmd out : string) : string :=
  "Command '" +:+ cmd +:+ "' output:" +:+ nl +:+ out +:+ nl.

(** [port := config.Port; if port == "" { port = "22" }] and
    fmt.Sprintf("%s:%s", host, port) *)
Definition address (host : string) (config : SSHConfig) : string :=
  let port := if (Port config =? "")%string then "22" else Port config in
  host +:+ ":" +:+ port.

Definition clientConfig (config : SSHConfig) (authMethod : AuthMethod) : ClientConfig :=
  {| ccUser := User config;
     ccAuth := [authMethod];
     ccHostKeyCallback := InsecureIgnoreHostKey;
     ccTimeout := Timeout config |}.

(** ** ExecuteRemoteCommands: goroutines, WaitGroup and channel

    Both versions share the code around the goroutine body (lines 39-46 and
    126-139; 284-291 and 315-328), so the transition system takes the body
    as a parameter. *)

(** Where the function itself stands. *)
Inductive MainPC :=
| Spawning (i : nat)   (* in [for _, host := range config.Hosts], at index i *)
| StartCloser          (* before [go func() { wg.Wait(); close(results) }()] *)
| Collecting           (* in [for result := range results] *)
| Returned.

(** Where the goroutine of lines 128-131 stands. *)
Inductive CloserPC :=
| NotStarted
| Waiting              (* in [wg.Wait()] *)
| Closed.              (* after [close(results)] *)

Record State := {
  mem_config : SSHConfig;              (* config, with the array behind config.Hosts *)
  mem_commands : list string;          (* the array behind commands *)
  pc : MainPC;
  wg : nat;                            (* the WaitGroup counter *)
  results : list CommandResult;        (* values queued in the channel *)
  results_cap : nat;                   (* its capacity *)
  results_closed : bool;
  goroutines : list (list Event);      (* live host goroutines: what each has left to do *)
  closer : CloserPC;
  commandResults : list CommandResult
}.

(** Who runs next. *)
Inductive Choice :=
| RunMain
| RunCloser
| RunHost (k : nat).   (* the k-th live host goroutine *)

Inductive Step :=
| Next (s : State)
| Blocked              (* the chosen party cannot move now, or is gone *)
| Panic.               (* send on a closed channel, negative WaitGroup counter,
                          index out of range *)

(** The values a trace sends on the channel. *)
Fixpoint sends (t : list Event) : list CommandResult :=
  match t with
  | [] => []
  | EvSend res :: t' => res :: sends t'
  | _ :: t' => sends t'
  end.

(** The assignments a trace makes to the caller's arrays. *)
Fixpoint stores (t : list Event) : list (Input * nat * string) :=
  match t with
  | [] => []
  | EvStore a i v :: t' => (a, i, v) :: stores t'
  | _ :: t' => stores t'
  end.

(** [l[i] = v]; [None] when the index is out of range. *)
Fixpoint store_at (i : nat) (v : string) (l : list string) : option (list string) :=
  match l, i with
  | [], _ => None
  | _ :: l', O => Some (v :: l')
  | x :: l', S i' => option_map (cons x) (store_at i' v l')
  end.

Definition set_Hosts (config : SSHConfig) (hosts : list string) : SSHConfig :=
  {| Hosts := hosts; Port := Port config; User := User config;
     Password := Password config; KeyPath := KeyPath config; Timeout := Timeout config |}.

Definition replace_nth {A} (k : nat) (x : A) (l : list A) : list A :=
  firstn k l ++ x :: skipn (S k) l.

Definition remove_nth {A} (k : nat) (l : list A) : list A :=
  firstn k l ++ skipn (S k) l.

Section Scheduler.
Variable body : Remote -> SSHConfig -> list string -> string -> Task unit.
Variable w : World.

(** Everything the goroutine of the host at position [i] does, in order.
    It is fixed when the goroutine is started, from the arrays as they are
    then. *)
Definition script (config : SSHConfig) (commands : list string) (i : nat) (host : string)
    : list Event :=
  trace (snd (body (w i) config commands host start)).

(** State on entry: [results := make(chan CommandResult, len(config.Hosts))]. *)
Definition init (config : SSHConfig) (commands : list string) : State :=
  {| mem_config := config; mem_commands := commands;
     pc := Spawning 0; wg := 0;
     results := []; results_cap := List.length (Hosts config); results_closed := false;
     goroutines := []; closer := NotStarted; commandResults := [] |}.

Definition step (c : Choice) (s : State) : Step :=
  let mk := Build_State (mem_config s) (mem_commands s) in
  match c with
  | RunMain =>
      match pc s with
      | Spawning i =>
          match nth_error (Hosts (mem_config s)) i with
          | Some host =>
              (* wg.Add(1); go func(currentHost string) {...}(host) *)
              Next (mk (Spawning (S i)) (S (wg s)) (results s) (results_cap s)
                      (results_closed s)
                      (goroutines s ++ [script (mem_config s) (mem_commands s) i host])
                      (closer s) (commandResults s))
          | None =>
              Next (mk StartCloser (wg s) (results s) (results_cap s) (results_closed s)
                      (goroutines s) (closer s) (commandResults s))
          end
      | StartCloser =>
          Next (mk Collecting (wg s) (results s) (results_cap s) (results_closed s)
                  (goroutines s) Waiting (commandResults s))
      | Collecting =>
          match results s with
          | result :: queued =>
              (* commandResults = append(commandResults, result) *)
              Next (mk Collecting (wg s) queued (results_cap s) (results_closed s)
                      (goroutines s) (closer s) (commandResults s ++ [result]))
          | [] =>
              if results_closed s then
                Next (mk Returned (wg s) [] (results_cap s) (results_closed s)
                        (goroutines s) (closer s) (commandResults s))
              else Blocked
          end
      | Returned => Blocked
      end
  | RunCloser =>
      match closer s with
      | Waiting =>
          if (wg s =? 0)%nat then
            Next (mk (pc s) (wg s) (results s) (results_cap s) true
                    (goroutines s) Closed (commandResults s))
          else Blocked
      | _ => Blocked
      end
  | RunHost k =>
      match nth_error (goroutines s) k with
      | None => Blocked
      | Some [] =>
          (* defer wg.Done() *)
          match wg s with
          | S n =>
              Next (mk (pc s) n (results s) (results_cap s) (results_closed s)
                      (remove_nth k (goroutines s)) (closer s) (commandResults s))
          | O => Panic
          end
      | Some (EvSend res :: todo) =>
          if results_closed s then Panic
          else if (List.length (results s) <? results_cap s)%nat then
            Next (mk (pc s) (wg s) (results s ++ [res]) (results_cap s) (results_closed s)
                    (replace_nth k todo (goroutines s)) (closer s) (commandResults s))
          else Blocked
      | Some (EvStore a i v :: todo) =>
          (* an assignment to an element of one of the caller's arrays *)
          match a with
          | HostsArray =>
              match store_at i v (Hosts (mem_config s)) with
              | Some hosts =>
                  Next (Build_State (set_Hosts (mem_config s) hosts) (mem_commands s)
                          (pc s) (wg s) (results s) (results_cap s) (results_closed s)
                          (replace_nth k todo (goroutines s)) (closer s) (commandResults s))
              | None => Panic
              end
          | CommandsArray =>
              match store_at i v (mem_commands s) with
              | Some cmds =>
                  Next (Build_State (mem_config s) cmds
                          (pc s) (wg s) (results s) (results_cap s) (results_closed s)
                          (replace_nth k todo (goroutines s)) (closer s) (commandResults s))
              | None => Panic
              end
          end
      | Some (_ :: todo) =>
          Next (mk (pc s) (wg s) (results s) (results_cap s) (results_closed s)
                  (replace_nth k todo (goroutines s)) (closer s) (commandResults s))
      end
  end.

(** A schedule, run from [s]; [None] when a choice is blocked or panics. *)
Fixpoint run (cs : list Choice) (s : State) : option State :=
  match cs with
  | [] => Some s
  | c :: cs' =>
      match step c s with
      | Next s' => run cs' s'
      | _ => None
      end
  end.

Inductive reachable (config : SSHConfig) (commands : list string) : State -> Prop :=
| reach_init : reachable config commands (init config commands)
| reach_step c s s' :
    reachable config commands s -> step c s = Next s' -> reachable config commands s'.

(** [ExecuteRemoteCommands config commands] can return [res]. *)
Definition returns (config : SSHConfig) (commands : list string)
    (res : list CommandResult) : Prop :=
  exists s, reachable config commands s /\ pc s = Returned /\ commandResults s = res.

(** The scripts of all the hosts, in input order. *)
Definition scripts (config : SSHConfig) (commands : list string) : list (list Event) :=
  map (fun ih => script config commands (fst ih) (snd ih))
      (combine (seq 0 (List.length (Hosts config))) (Hosts config)).

(** *** Invariant and termination measure of the transition system *)

(** The goroutines the spawning loop has not started yet. *)
Definition unspawned (s : State) : list (list Event) :=
  match pc s with
  | Spawning i => skipn i (scripts (mem_config s) (mem_commands s))
  | _ => []
  end.

(** How the main function, the closing goroutine and the channel go together. *)
Definition phase_ok (s : State) : Prop :=
  match pc s, closer s with
  | Spawning _, NotStarted => results_closed s = false
  | StartCloser, NotStarted => results_closed s = false
  | Collecting, Waiting => results_closed s = false
  | Collecting, Closed => results_closed s = true /\ goroutines s = []
  | Returned, Closed => results_closed s = true /\ goroutines s = [] /\ results s = []
  | _, _ => False
  end.

Record Inv (config : SSHConfig) (commands : list string) (s : State) : Prop := {
  inv_config : mem_config s = config;
  inv_commands : mem_commands s = commands;
  inv_cap : results_cap s = List.length (Hosts config);
  inv_wg : wg s = List.length (goroutines s);
  inv_phase : phase_ok s;
  inv_quiet : Forall (fun t => stores t = []) (goroutines s);
  inv_results :
    Permutation
      (commandResults s ++ results s ++
       flat_map sends (goroutines s) ++ flat_map sends (unspawned s))
      (flat_map sends (scripts config commands))
}.

(** Steps a goroutine with script [t] still takes, receiving its sends included. *)
Fixpoint cost (t : list Event) : nat :=
  match t with
  | [] => 1
  | EvSend _ :: t' => 2 + cost t'
  | _ :: t' => 1 + cost t'
  end.

Definition total (l : list (list Event)) : nat := list_sum (map cost l).

Definition measure (s : State) : nat :=
  match pc s with Spawning _ => 4 | StartCloser => 3 | Collecting => 1 | Returned => 0 end
  + match closer s with Closed => 0 | _ => 1 end
  + total (goroutines s)
  + (List.length (unspawned s) + total (unspawned s))
  + List.length (results s).

End Scheduler.

(** ** What a host goroutine meets

    The answers of a capability, summed up per host and per command.  The
    hypotheses of the theorems about failures are stated with these. *)

Inductive SetupOutcome :=
| NoCredential                                   (* neither key path nor password *)
| KeyUnreadable (e : string)                     (* os.ReadFile fails *)
| KeyInvalid (e : string)                        (* ssh.ParsePrivateKey fails *)
| DialFails (auth : AuthMethod) (e : string)     (* ssh.Dial fails: network, handshake, authentication *)
| Connected (auth : AuthMethod) (client : Client).

Definition dial_outcome (r : Remote) (config : SSHConfig) (host : string)
    (auth : AuthMethod) : SetupOutcome :=
  match ssh_Dial r "tcp" (address host config) (clientConfig config auth) with
  | Ok client => Connected auth client
  | Err e => DialFails auth e
  end.

Definition setup (r : Remote) (config : SSHConfig) (host : string) : SetupOutcome :=
  if negb (KeyPath config =? "")%string then
    match os_ReadFile r (KeyPath config) with
    | Err e => KeyUnreadable e
    | Ok pem =>
        match ssh_ParsePrivateKey r pem with
        | Err e => KeyInvalid e
        | Ok signer => dial_outcome r config host (PublicKeys signer)
        end
    end
  else if negb (Password config =? "")%string then
    dial_outcome r config host (PasswordAuth (Password config))
  else NoCredential.

(** Host-level failure: no connection comes out of the setup. *)
Definition host_level_failure (r : Remote) (config : SSHConfig) (host : string) : bool :=
  match setup r config host with
  | Connected _ _ => false
  | _ => true
  end.

(** What happens to the command run in session number [n] of [client]. *)
Inductive CommandOutcome :=
| SessionFails (e : string)                      (* client.NewSession fails *)
| PipeFails (e : string)                         (* session.StdoutPipe fails *)
| StartFails (e : string)                        (* session.Start fails *)
| Completes (out : string) (readErr waitErr : error).
                                                 (* started; what io.ReadAll and session.Wait give *)

Definition command_outcome (r : Remote) (client : Client) (n : nat) (cmd : string)
    : CommandOutcome :=
  match ssh_NewSession r client n with
  | Err e => SessionFails e
  | Ok session =>
      match ssh_StdoutPipe r session with
      | Err e => PipeFails e
      | Ok stdout =>
          match ssh_Start r session cmd with
          | Some e => StartFails e
          | None =>
              Completes (fst (io_ReadAll r stdout)) (snd (io_ReadAll r stdout))
                        (ssh_Wait r session)
          end
      end
  end.

(** The commands with the number of the session each one runs in. *)
Definition indexed_from (n : nat) (commands : list string) : list (nat * string) :=
  combine (seq n (List.length commands)) commands.

Definition indexed (commands : list string) : list (nat * string) :=
  indexed_from 0 commands.

Definition join (l : list string) : string := fold_right String.append "" l.

Fixpoint first_some {A B} (f : A -> option B) (l : list A) : option B :=
  match l with
  | [] => None
  | x :: l' => match f x with Some y => Some y | None => first_some f l' end
  end.

(** An entry of an output blob that names the command [cmd]. *)
Definition EntryOf (cmd entry : string) : Prop :=
  exists x, entry = failed_note cmd x \/ entry = labeled_output cmd x.

(** Calls made on a session: the attempt to run a command. *)
Definition session_event (e : Event) : bool :=
  match e with
  | EvNewSession _ | EvStdoutPipe _ | EvStart _ _
  | EvReadAll _ | EvWait _ | EvSessionClose _ => true
  | _ => false
  end.

(** The client configurations a trace dials with. *)
Fixpoint dials (t : list Event) : list ClientConfig :=
  match t with
  | [] => []
  | EvDial _ _ cc :: t' => cc :: dials t'
  | _ :: t' => dials t'
  end.

(** The client configurations the setup of a host dials with. *)
Definition dialed_with (r : Remote) (config : SSHConfig) (host : string) : list ClientConfig :=
  match setup r config host with
  | DialFails auth _ | Connected auth _ => [clientConfig config auth]
  | _ => []
  end.

Definition failed (host e : string) : CommandResult :=
  {| Hostname := host; Output := ""; Error := Some e |}.

(** ** First version: everything inline in the goroutine (main.go, 38-139) *)

Module Inline.

(** The loop [for _, cmd := range commands] (lines 94-121).  [inr e] is the
    early exit that sets [hostResult.Error]; [inl] is the fall-through with
    the value of [combinedOutput]. *)
Fixpoint commandLoop (r : Remote) (client : Client) (commands : list string)
    (combinedOutput : string) : Task (string + string) :=
  match commands with
  | [] => ret (inl combinedOutput)
  | cmd :: rest =>
      session <- NewSession r client ;;
      match session with
      | Err err => ret (inr ("session: " +:+ err))
      | Ok session =>
          stdout <- StdoutPipe r session ;;
          match stdout with
          | Err err =>
              SessionClose session ;;; ret (inr ("stdout pipe: " +:+ err))
          | Ok stdout =>
              err <- Start r session cmd ;;
              match err with
              | Some err =>
                  SessionClose session ;;;
                  commandLoop r client rest (combinedOutput +:+ failed_note cmd err)
              | None =>
                  buf <- ReadAll r stdout ;;
                  Wait r session ;;;
                  SessionClose session ;;;
                  commandLoop r client rest
                    (combinedOutput +:+ labeled_output cmd (fst buf))
              end
          end
      end
  end.

(** Lines 49-70: [inr e] is the early exit with [hostResult.Error = e]. *)
Definition chooseAuth (r : Remote) (config : SSHConfig) : Task (AuthMethod + string) :=
  if negb (KeyPath config =? "")%string then
    key <- ReadFile r (KeyPath config) ;;
    match key with
    | Err err => ret (inr ("read key: " +:+ err))
    | Ok key =>
        signer <- ParsePrivateKey r key ;;
        match signer with
        | Err err => ret (inr ("parse key: " +:+ err))
        | Ok signer => ret (inl (PublicKeys signer))
        end
    end
  else if negb (Password config =? "")%string then
    ret (inl (PasswordAuth (Password config)))
  else
    ret (inr "no auth method").

(** The body of [go func(currentHost string) { ... }(host)] (lines 44-125),
    [defer wg.Done()] apart, which belongs to the scheduler. *)
Definition goroutine (r : Remote) (config : SSHConfig) (commands : list string)
    (currentHost : string) : Task unit :=
  let hostResult := {| Hostname := currentHost; Output := ""; Error := None |} in
  auth <- chooseAuth r config ;;
  match auth with
  | inr e => send (set_Error hostResult e)
  | inl authMethod =>
      client <- Dial r "tcp" (address currentHost config) (clientConfig config authMethod) ;;
      match client with
      | Err err =>
          send (set_Error hostResult ("dial " +:+ currentHost +:+ ": " +:+ err))
      | Ok client =>
          out <- commandLoop r client commands "" ;;
          match out with
          | inr e => send (set_Error hostResult e)
          | inl combinedOutput => send (set_Output hostResult combinedOutput)
          end ;;;
          ClientClose client
      end
  end.

(** *** Closed form of what the goroutine sends *)

(** The terminal error command [ic] ends the host with, if any. *)
Definition abort (r : Remote) (client : Client) (ic : nat * string) : option string :=
  match command_outcome r client (fst ic) (snd ic) with
  | SessionFails e => Some ("session: " +:+ e)
  | PipeFails e => Some ("stdout pipe: " +:+ e)
  | _ => None
  end.

(** What command [ic] adds to [combinedOutput]. *)
Definition entry (r : Remote) (client : Client) (ic : nat * string) : string :=
  match command_outcome r client (fst ic) (snd ic) with
  | StartFails e => failed_note (snd ic) e
  | Completes out _ _ => labeled_output (snd ic) out
  | _ => ""
  end.

Definition report (r : Remote) (config : SSHConfig) (commands : list string)
    (host : string) : CommandResult :=
  match setup r config host with
  | NoCredential => failed host "no auth method"
  | KeyUnreadable e => failed host ("read key: " +:+ e)
  | KeyInvalid e => failed host ("parse key: " +:+ e)
  | DialFails _ e => failed host ("dial " +:+ host +:+ ": " +:+ e)
  | Connected _ client =>
      match first_some (abort r client) (indexed commands) with
      | Some e => failed host e
      | None =>
          {| Hostname := host;
             Output := join (map (entry r client) (indexed commands));
             Error := None |}
      end
  end.

(** [ExecuteRemoteCommands(config, commands)] can return [res] in world [w]. *)
Definition ExecuteRemoteCommands (w : World) (config : SSHConfig) (commands : list string)
    (res : list CommandResult) : Prop :=
  returns goroutine w config commands res.

End Inline.

(** ** Second version: setupSSHClient and executeCommand (main.go, 227-328) *)

Module Refactored.

Definition setupSSHClient (r : Remote) (host : string) (config : SSHConfig)
    : Task (Result Client) :=
  auth <-
    (if negb (KeyPath config =? "")%string then
       key <- ReadFile r (KeyPath config) ;;
       match key with
       | Err err => ret (Err ("read key: " +:+ err))
       | Ok key =>
           signer <- ParsePrivateKey r key ;;
           match signer with
           | Err err => ret (Err ("parse key: " +:+ err))
           | Ok signer => ret (Ok (PublicKeys signer))
           end
       end
     else if negb (Password config =? "")%string then
       ret (Ok (PasswordAuth (Password config)))
     else
       ret (Err "no auth method")) ;;
  match auth with
  | Err e => ret (Err e)
  | Ok authMethod => Dial r "tcp" (address host config) (clientConfig config authMethod)
  end.

Definition executeCommand (r : Remote) (client : Client) (cmd : string)
    : Task (Result string) :=
  session <- NewSession r client ;;
  match session with
  | Err err => ret (Err ("session: " +:+ err))
  | Ok session =>
      res <-
        (stdout <- StdoutPipe r session ;;
         match stdout with
         | Err err => ret (Err ("stdout pipe: " +:+ err))
         | Ok stdout =>
             err <- Start r session cmd ;;
             match err with
             | Some err => ret (Err ("start command: " +:+ err))
             | None =>
                 buf <- ReadAll r stdout ;;
                 Wait r session ;;;
                 ret (Ok (fst buf))
             end
         end) ;;
      (* defer session.Close() *)
      SessionClose session ;;;
      ret res
  end.

(** The loop [for _, cmd := range commands] (lines 303-310). *)
Fixpoint commandLoop (r : Remote) (client : Client) (commands : list string)
    (combinedOutput : string) : Task string :=
  match commands with
  | [] => ret combinedOutput
  | cmd :: rest =>
      output <- executeCommand r client cmd ;;
      match output with
      | Err err => commandLoop r client rest (combinedOutput +:+ failed_note cmd err)
      | Ok output => commandLoop r client rest (combinedOutput +:+ labeled_output cmd output)
      end
  end.

(** The body of [go func(currentHost string) { ... }(host)] (lines 289-314). *)
Definition goroutine (r : Remote) (config : SSHConfig) (commands : list string)
    (currentHost : string) : Task unit :=
  let hostResult := {| Hostname := currentHost; Output := ""; Error := None |} in
  client <- setupSSHClient r currentHost config ;;
  match client with
  | Err err =>
      send (set_Error hostResult ("dial " +:+ currentHost +:+ ": " +:+ err))
  | Ok client =>
      combinedOutput <- commandLoop r client commands "" ;;
      send (set_Output hostResult combinedOutput) ;;;
      (* defer client.Close() *)
      ClientClose client
  end.

(** *** Closed form of what the goroutine sends *)

(** What command [ic] adds to [combinedOutput]. *)
Definition entry (r : Remote) (client : Client) (ic : nat * string) : string :=
  match command_outcome r client (fst ic) (snd ic) with
  | SessionFails e => failed_note (snd ic) ("session: " +:+ e)
  | PipeFails e => failed_note (snd ic) ("stdout pipe: " +:+ e)
  | StartFails e => failed_note (snd ic) ("start command: " +:+ e)
  | Completes out _ _ => labeled_output (snd ic) out
  end.

Definition report (r : Remote) (config : SSHConfig) (commands : list string)
    (host : string) : CommandResult :=
  match setup r config host with
  | NoCredential => failed host ("dial " +:+ host +:+ ": no auth method")
  | KeyUnreadable e => failed host ("dial " +:+ host +:+ ": read key: " +:+ e)
  | KeyInvalid e => failed host ("dial " +:+ host +:+ ": parse key: " +:+ e)
  | DialFails _ e => failed host ("dial " +:+ host +:+ ": " +:+ e)
  | Connected _ client =>
      {| Hostname := host;
         Output := join (map (entry r client) (indexed commands));
         Error := None |}
  end.

(** [ExecuteRemoteCommands(config, commands)] can return [res] in world [w]. *)
Definition ExecuteRemoteCommands (w : World) (config : SSHConfig) (commands : list string)
    (res : list CommandResult) : Prop :=
  returns goroutine w config commands res.

End Refactored.

(** ** Results in input order, schedules, sample worlds *)

(** The Per-Host Results of a run, one per position of [config.Hosts], in
    input order ([report] is the closed form of a version). *)
Definition reports (report : Remote -> SSHConfig -> list string -> string -> CommandResult)
    (w : World) (config : SSHConfig) (commands : list string) : list CommandResult :=
  map (fun ih => report (w (fst ih)) config commands (snd ih)) (indexed (Hosts config)).



(** A scheduler: the main function while it spawns, then the oldest live
    goroutine, then the closing goroutine, then the main function again. *)
Definition pick (s : State) : Choice :=
  match pc s with
  | Spawning _ | StartCloser => RunMain
  | _ =>
      match goroutines s with
      | _ :: _ => RunHost 0
      | [] => match closer s with Waiting => RunCloser | _ => RunMain end
      end
  end.

Section Schedule.
Variable body : Remote -> SSHConfig -> list string -> string -> Task unit.
Variable w : World.

Fixpoint schedule (fuel : nat) (s : State) : list Choice :=
  match fuel with
  | O => []
  | S fuel' =>
      match pc s with
      | Returned => []
      | _ =>
          match step body w (pick s) s with
          | Next s' => pick s :: schedule fuel' s'
          | _ => []
          end
      end
  end.

(** The run under [pick], cut off after [fuel] steps. *)
Definition execute (fuel : nat) (config : SSHConfig) (commands : list string) : option State :=
  run body w (schedule fuel (init config commands)) (init config commands).

End Schedule.

Module Sample.

Definition config (hosts : list string) (password keyPath : string) : SSHConfig :=
  {| Hosts := hosts; Port := ""; User := "ops"; Password := password;
     KeyPath := keyPath; Timeout := 5000000000 |}.

Definition commands : list string := ["uname -a"; "df -h"; "uptime"].

(** A host on which everything works; the output of session [n] is "out". *)
Definition healthy : Remote :=
  {| os_ReadFile := fun _ => Ok "PEM";
     ssh_ParsePrivateKey := fun _ => Ok "signer";
     ssh_Dial := fun _ _ _ => Ok 1;
     ssh_NewSession := fun _ n => Ok n;
     ssh_StdoutPipe := fun s => Ok s;
     ssh_Start := fun _ _ => None;
     io_ReadAll := fun _ => ("out", None);
     ssh_Wait := fun _ => None |}.

(** A host that refuses the connection. *)
Definition unreachable : Remote :=
  {| os_ReadFile := os_ReadFile healthy;
     ssh_ParsePrivateKey := ssh_ParsePrivateKey healthy;
     ssh_Dial := fun _ _ _ => Err "connection refused";
     ssh_NewSession := ssh_NewSession healthy;
     ssh_StdoutPipe := ssh_StdoutPipe healthy;
     ssh_Start := ssh_Start healthy;
     io_ReadAll := io_ReadAll healthy;
     ssh_Wait := ssh_Wait healthy |}.

(** A host that refuses to open its second session. *)
Definition no_second_session : Remote :=
  {| os_ReadFile := os_ReadFile healthy;
     ssh_ParsePrivateKey := ssh_ParsePrivateKey healthy;
     ssh_Dial := ssh_Dial healthy;
     ssh_NewSession := fun _ n => if (n =? 1)%nat then Err "open failed" else Ok n;
     ssh_StdoutPipe := ssh_StdoutPipe healthy;
     ssh_Start := ssh_Start healthy;
     io_ReadAll := io_ReadAll healthy;
     ssh_Wait := ssh_Wait healthy |}.

(** A host on which the second command cannot be started. *)
Definition no_second_start : Remote :=
  {| os_ReadFile := os_ReadFile healthy;
     ssh_ParsePrivateKey := ssh_ParsePrivateKey healthy;
     ssh_Dial := ssh_Dial healthy;
     ssh_NewSession := ssh_NewSession healthy;
     ssh_StdoutPipe := ssh_StdoutPipe healthy;
     ssh_Start := fun s _ => if (s =? 1)%nat then Some "exec failed" else None;
     io_ReadAll := io_ReadAll healthy;
     ssh_Wait := ssh_Wait healthy |}.

(** A host on which every command starts and exits with status 1. *)
Definition exits_abnormally : Remote :=
  {| os_ReadFile := os_ReadFile healthy;
     ssh_ParsePrivateKey := ssh_ParsePrivateKey healthy;
     ssh_Dial := ssh_Dial healthy;
     ssh_NewSession := ssh_NewSession healthy;
     ssh_StdoutPipe := ssh_StdoutPipe healthy;
     ssh_Start := ssh_Start healthy;
     io_ReadAll := io_ReadAll healthy;
     ssh_Wait := fun _ => Some "Process exited with status 1" |}.

(** The same capability for every host. *)
Definition everywhere (r : Remote) : World := fun _ => r.

(** [r] for the host at position 0, [healthy] for the others. *)
Definition first_host (r : Remote) : World :=
  fun i => match i with O => r | _ => healthy end.

End Sample.

(** ** Further definitions: sessions, dial targets, the command line *)

(** A state in the middle of the sample run under [pick], after [fuel] steps. *)
Definition midway (body : Remote -> SSHConfig -> list string -> string -> Task unit)
    (w : World) (fuel : nat) (config : SSHConfig) (commands : list string) : option State :=
  execute body w fuel config commands.

(** The calls made for the command run in session number [n]: the same in
    both versions. *)
Definition command_events (r : Remote) (client : Client) (ic : nat * string) : list Event :=
  EvNewSession client ::
  match ssh_NewSession r client (fst ic) with
  | Err _ => []
  | Ok session =>
      EvStdoutPipe session ::
      match ssh_StdoutPipe r session with
      | Err _ => [EvSessionClose session]
      | Ok stdout =>
          EvStart session (snd ic) ::
          match ssh_Start r session (snd ic) with
          | Some _ => [EvSessionClose session]
          | None => [EvReadAll stdout; EvWait session; EvSessionClose session]
          end
      end
  end.

(** The calls of the connection setup of a host: the same in both versions. *)
Definition setup_events (r : Remote) (config : SSHConfig) (host : string) : list Event :=
  if negb (KeyPath config =? "")%string then
    EvReadFile (KeyPath config) ::
    match os_ReadFile r (KeyPath config) with
    | Err _ => []
    | Ok pem =>
        EvParsePrivateKey pem ::
        match ssh_ParsePrivateKey r pem with
        | Err _ => []
        | Ok signer =>
            [EvDial "tcp" (address host config) (clientConfig config (PublicKeys signer))]
        end
    end
  else if negb (Password config =? "")%string then
    [EvDial "tcp" (address host config)
       (clientConfig config (PasswordAuth (Password config)))]
  else [].

(** The commands the inline loop gets to: up to and including the first one
    whose session or stdout pipe fails. *)
Fixpoint upto_abort (r : Remote) (client : Client) (l : list (nat * string))
    : list (nat * string) :=
  match l with
  | [] => []
  | ic :: l' =>
      match Inline.abort r client ic with
      | Some _ => [ic]
      | None => ic :: upto_abort r client l'
      end
  end.

(** Command [ic] gets as far as session.Start. *)
Definition reaches_start (r : Remote) (client : Client) (ic : nat * string) : bool :=
  match command_outcome r client (fst ic) (snd ic) with
  | SessionFails _ | PipeFails _ => false
  | _ => true
  end.

(** The commands a trace passes to session.Start, in order. *)
Fixpoint starts (t : list Event) : list string :=
  match t with
  | [] => []
  | EvStart _ cmd :: t' => cmd :: starts t'
  | _ :: t' => starts t'
  end.

(** The clients a trace closes. *)
Fixpoint closes (t : list Event) : list Client :=
  match t with
  | [] => []
  | EvClientClose c :: t' => c :: closes t'
  | _ :: t' => closes t'
  end.

(** Network and address of the dials of a trace. *)
Fixpoint dial_targets (t : list Event) : list (string * string) :=
  match t with
  | [] => []
  | EvDial network addr _ :: t' => (network, addr) :: dial_targets t'
  | _ :: t' => dial_targets t'
  end.

(** The number of calls of client.NewSession in a trace. *)
Definition new_sessions (t : list Event) : nat :=
  List.length (filter (fun e => match e with EvNewSession _ => true | _ => false end) t).

(** Following a trace call by call: the number of NewSession calls made and
    the session that is open.  [None] once the trace breaks the discipline:
    a session opened while another is open, a call on a session that is not
    the open one, a send or a client close while a session is open. *)
Definition track (r : Remote) (st : option (nat * option Session)) (e : Event)
    : option (nat * option Session) :=
  match st with
  | None => None
  | Some (n, None) =>
      match e with
      | EvNewSession c =>
          Some (S n, match ssh_NewSession r c n with Ok s => Some s | Err _ => None end)
      | EvStdoutPipe _ | EvStart _ _ | EvWait _ | EvSessionClose _ => None
      | _ => st
      end
  | Some (n, Some s) =>
      match e with
      | EvStdoutPipe s' | EvStart s' _ | EvWait s' => if (s' =? s)%nat then st else None
      | EvSessionClose s' => if (s' =? s)%nat then Some (n, None) else None
      | EvReadAll _ => st
      | _ => None
      end
  end.

(** The trace keeps the discipline and leaves no session open. *)
Definition disciplined (r : Remote) (t : list Event) : bool :=
  match fold_left (track r) t (Some (0, None)) with
  | Some (_, None) => true
  | _ => false
  end.

(** The pairs of [l] are numbered from [n] on. *)
Definition numbered (n : nat) (l : list (nat * string)) : Prop :=
  map fst l = seq n (List.length l).

(** The calls of a trace on the outside world: everything but the sends. *)
Definition calls (t : list Event) : list Event :=
  filter (fun e => match e with EvSend _ => false | _ => true end) t.

(** ** main (main.go, lines 141-190; the same at 330-379) *)

(** The values of the three flags once [flag.Parse()] has returned. *)
Record Flags := {
  flag_key : string;          (* *keyPath *)
  flag_user : string;         (* *user *)
  flag_inventory : string     (* *inventoryFile *)
}.

Record Inventory := {
  inv_Hosts : list string
}.

(** What main meets besides the hosts: the inventory file and the JSON
    decoder. *)
Record System := {
  sys_ReadFile : string -> Result string;
  json_Unmarshal : string -> Result Inventory
}.

(** What the process leaves behind. *)
Record Outcome := {
  stdout : string;
  stderr : string;
  exit_code : Z
}.

Definition esc : string := String (ascii_of_nat 27) EmptyString.

(** One turn of the loop [for _, result := range results] (lines 182-189). *)
Definition print_result (result : CommandResult) : string :=
  (nl +:+ esc +:+ "[1;34m========== Host: " +:+ Hostname result +:+ " =========="
   +:+ esc +:+ "[0m" +:+ nl) +:+
  match Error result with
  | Some err => esc +:+ "[0;31mError:" +:+ esc +:+ "[0m " +:+ err +:+ nl
  | None => Output result +:+ nl
  end.

Definition print_results (results : list CommandResult) : string :=
  join (map print_result results).

(** [commands := []string{...}] (lines 172-178). *)
Definition main_commands : list string :=
  ["uname -a"; "df -h"; "uptime"; "free -h"; "nproc"].

(** [config := SSHConfig{...}] (lines 165-170): Port and Password keep their
    zero value; the timeout is 5 * time.Second, in nanoseconds. *)
Definition main_config (flags : Flags) (inventory : Inventory) : SSHConfig :=
  {| Hosts := inv_Hosts inventory;
     Port := "";
     User := flag_user flags;
     Password := "";
     KeyPath := flag_key flags;
     Timeout := 5 * 1000000000 |}.

(** What [flag.Parse()] (line 145) makes of the command line.  The flag
    package ends the process itself, with its message on stderr, on a flag
    that is not defined or on -h; otherwise it returns with the flags set. *)
Inductive Parsed :=
| ParseExits (message : string) (code : Z)
| ParseReturns (flags : Flags).

(** main from the test of the user (line 147) up to the call of
    ExecuteRemoteCommands: it exits with a message on stderr, or it calls. *)
Inductive Prepared :=
| Exits (message : string) (code : Z)
| Calls (config : SSHConfig) (commands : list string).

Definition main_prepare (sys : System) (flags : Flags) : Prepared :=
  if (flag_user flags =? "")%string then
    Exits ("Error: SSH user must be specified with --user" +:+ nl) 1
  else
    match sys_ReadFile sys (flag_inventory flags) with
    | Err err => Exits ("Error reading inventory: " +:+ err +:+ nl) 1
    | Ok fileContent =>
        match json_Unmarshal sys fileContent with
        | Err err => Exits ("Error parsing inventory: " +:+ err +:+ nl) 1
        | Ok inventory => Calls (main_config flags inventory) main_commands
        end
    end.

(** main, over one of the two versions of ExecuteRemoteCommands: [out] is a
    possible outcome of the process, [parsed] being what [flag.Parse()] does. *)
Definition main
    (ExecuteRemoteCommands : World -> SSHConfig -> list string -> list CommandResult -> Prop)
    (w : World) (sys : System) (parsed : Parsed) (out : Outcome) : Prop :=
  match parsed with
  | ParseExits message code =>
      out = {| stdout := ""; stderr := message; exit_code := code |}
  | ParseReturns flags =>
      match main_prepare sys flags with
      | Exits message code =>
          out = {| stdout := ""; stderr := message; exit_code := code |}
      | Calls config commands =>
          exists results,
            ExecuteRemoteCommands w config commands results /\
            out = {| stdout := print_results results; stderr := ""; exit_code := 0 |}
      end
  end.

Module SampleSystem.

(** An inventory file "inventory.json" that lists the hosts "a" and "b"; no
    other file. *)
Definition two_hosts : System :=
  {| sys_ReadFile := fun name =>
       if (name =? "inventory.json")%string then Ok "{hosts}"
       else Err "no such file";
     json_Unmarshal := fun content =>
       if (content =? "{hosts}")%string then Ok {| inv_Hosts := ["a"; "b"] |}
       else Err "invalid character" |}.

Definition flags (key user : string) : Flags :=
  {| flag_key := key; flag_user := user; flag_inventory := "inventory.json" |}.

(** What the flag package does with a flag that is not defined. *)
Definition undefined_flag : Parsed :=
  ParseExits "flag provided but not defined: -port" 2.

End SampleSystem.

(** A goroutine body that is not in main.go: it assigns to config.Hosts[0]
    before it sends its result.  It shows what [mem_config] records. *)
Definition scribbling_goroutine (r : Remote) (config : SSHConfig)
    (commands : list string) (currentHost : string) : Task unit :=
  perform (EvStore HostsArray 0 "overwritten") ;;;
  send {| Hostname := currentHost; Output := ""; Error := None |}.

(** * Properties *)

(** ** Lists *)

Lemma skipn_nth_error {A} (l : list A) (k : nat) (x : A) :
  nth_error l k = Some x -> skipn k l = x :: skipn (S k) l.
Proof.
  revert l; induction k as [|k IH]; intros [|y l] H; simpl in *; try discriminate.
  - now inversion H.
  - now apply IH.
Qed.

Lemma split_nth_error {A} (l : list A) (k : nat) (x : A) :
  nth_error l k = Some x -> l = firstn k l ++ x :: skipn (S k) l.
Proof.
  intros H. rewrite <- (skipn_nth_error _ _ H). symmetry. apply firstn_skipn.
Qed.

Lemma nth_error_combine_seq {A} (l : list A) (a i : nat) (x : A) :
  nth_error l i = Some x ->
  nth_error (combine (seq a (List.length l)) l) i = Some (a + i, x).
Proof.
  revert a i; induction l as [|y l IH]; intros a [|i] H; simpl in *; try discriminate.
  - inversion H. now rewrite Nat.add_0_r.
  - rewrite (IH (S a) i H). f_equal. f_equal. lia.
Qed.

Lemma length_combine_seq {A} (l : list A) (a : nat) :
  List.length (combine (seq a (List.length l)) l) = List.length l.
Proof.
  rewrite length_combine, length_seq. apply Nat.min_id.
Qed.

(** ** The transition system, for any goroutine body *)

Section SchedulerFacts.
Variable body : Remote -> SSHConfig -> list string -> string -> Task unit.
Variable w : World.

Lemma scripts_nth_error config commands i host :
  nth_error (Hosts config) i = Some host ->
  nth_error (scripts body w config commands) i = Some (script body w config commands i host).
Proof.
  intros H. unfold scripts.
  rewrite nth_error_map, (nth_error_combine_seq _ 0 _ H). reflexivity.
Qed.

Lemma scripts_length config commands :
  List.length (scripts body w config commands) = List.length (Hosts config).
Proof.
  unfold scripts. rewrite length_map. apply length_combine_seq.
Qed.

Lemma sends_app t1 t2 : sends (t1 ++ t2) = sends t1 ++ sends t2.
Proof.
  induction t1 as [|e t1 IH]; simpl; [reflexivity|].
  destruct e; simpl; rewrite ?IH; reflexivity.
Qed.

Lemma total_app l1 l2 : total (l1 ++ l2) = total l1 + total l2.
Proof.
  unfold total. rewrite map_app, list_sum_app. reflexivity.
Qed.

Lemma cost_pos t : 0 < cost t.
Proof. destruct t as [|[] t]; simpl; lia. Qed.

Lemma total_cons t l : total (t :: l) = cost t + total l.
Proof. reflexivity. Qed.

Lemma total_replace k t (l : list (list Event)) :
  total (replace_nth k t l) = total (firstn k l) + cost t + total (skipn (S k) l).
Proof. unfold replace_nth. rewrite total_app, total_cons. lia. Qed.

Lemma total_split k t (l : list (list Event)) :
  nth_error l k = Some t ->
  total l = total (firstn k l) + cost t + total (skipn (S k) l).
Proof.
  intros H. rewrite (split_nth_error _ _ H) at 1. rewrite total_app, total_cons. lia.
Qed.

Lemma stores_app t1 t2 : stores (t1 ++ t2) = stores t1 ++ stores t2.
Proof.
  induction t1 as [|e t1 IH]; simpl; [reflexivity|].
  destruct e; simpl; rewrite ?IH; reflexivity.
Qed.

Lemma stores_tail e t : stores (e :: t) = [] -> stores t = [].
Proof. destruct e; simpl; [auto..|discriminate]. Qed.

Lemma quiet_nth (gs : list (list Event)) k g :
  Forall (fun t => stores t = []) gs -> nth_error gs k = Some g -> stores g = [].
Proof.
  intros HF Hk. rewrite Forall_forall in HF. apply HF. eapply nth_error_In; eauto.
Qed.

Lemma quiet_replace (gs : list (list Event)) k e todo :
  Forall (fun t => stores t = []) gs -> nth_error gs k = Some (e :: todo) ->
  Forall (fun t => stores t = []) (replace_nth k todo gs).
Proof.
  intros HF Hk. pose proof (quiet_nth _ HF Hk) as Hq. apply stores_tail in Hq.
  rewrite (split_nth_error _ _ Hk) in HF. unfold replace_nth.
  apply Forall_app in HF as [H1 H2]. inversion H2; subst.
  apply Forall_app. split; [assumption|]. constructor; assumption.
Qed.

Lemma quiet_remove (gs : list (list Event)) k g :
  Forall (fun t => stores t = []) gs -> nth_error gs k = Some g ->
  Forall (fun t => stores t = []) (remove_nth k gs).
Proof.
  intros HF Hk. rewrite (split_nth_error _ _ Hk) in HF. unfold remove_nth.
  apply Forall_app in HF as [H1 H2]. inversion H2; subst.
  apply Forall_app. split; assumption.
Qed.

Ltac step_inv H :=
  inversion H; subst; clear H;
  cbn [pc closer goroutines results mem_config mem_commands wg results_cap
       results_closed commandResults].

(** Every step brings the function closer to its return. *)
Lemma step_decreases config commands c s s' :
  Inv body w config commands s ->
  step body w c s = Next s' -> measure body w s' < measure body w s.
Proof.
  intros HI. destruct HI as [_ _ _ _ _ Hquiet _].
  unfold step, measure, unspawned. destruct c as [| |k].
  - destruct (pc s) eqn:Hpc.
    + destruct (nth_error (Hosts (mem_config s)) i) as [host|] eqn:Hn;
        intros H; step_inv H.
      * rewrite (skipn_nth_error _ _ (scripts_nth_error _ (mem_commands s) _ Hn)).
        rewrite total_app, !total_cons. change (total []) with 0.
        cbn [List.length]. lia.
      * change (total []) with 0. cbn [List.length]. lia.
    + intros H; step_inv H. lia.
    + destruct (results s) as [|res q] eqn:Hr.
      * destruct (results_closed s); intros H; step_inv H. lia.
      * intros H; step_inv H. cbn [List.length]. lia.
    + discriminate.
  - destruct (closer s) eqn:Hc; try discriminate.
    destruct (wg s =? 0)%nat; intros H; step_inv H.
    destruct (pc s); lia.
  - destruct (nth_error (goroutines s) k) as [g|] eqn:Hk; try discriminate.
    pose proof (total_split _ _ Hk) as Hm.
    destruct g as [|e todo].
    + destruct (wg s); intros H; step_inv H.
      unfold remove_nth. rewrite total_app. cbn [cost] in Hm. destruct (pc s); lia.
    + pose proof (total_replace k todo (goroutines s)) as Hr.
      pose proof (quiet_nth _ Hquiet Hk) as Hns.
      destruct e; try solve [cbn [stores] in Hns; discriminate Hns];
        try (intros H; step_inv H; cbn [cost] in Hm; destruct (pc s); lia).
      destruct (results_closed s); try discriminate.
      destruct (List.length (results s) <? results_cap s)%nat; try discriminate.
      intros H; step_inv H. rewrite length_app. cbn [List.length cost] in *.
      destruct (pc s); lia.
Qed.

Lemma scripts_skipn_all config commands i :
  nth_error (Hosts config) i = None -> skipn i (scripts body w config commands) = [].
Proof.
  intros H. apply skipn_all2. rewrite scripts_length. now apply nth_error_None.
Qed.

Lemma length_replace_nth {A} k (x y : A) (l : list A) :
  nth_error l k = Some y -> List.length (replace_nth k x l) = List.length l.
Proof.
  intros H. rewrite (split_nth_error _ _ H) at 2. unfold replace_nth.
  rewrite !length_app. reflexivity.
Qed.

Lemma length_remove_nth {A} k (y : A) (l : list A) :
  nth_error l k = Some y -> S (List.length (remove_nth k l)) = List.length l.
Proof.
  intros H. rewrite (split_nth_error _ _ H) at 2. unfold remove_nth.
  rewrite !length_app. cbn [List.length]. lia.
Qed.

Lemma inv_init config commands : Inv body w config commands (init config commands).
Proof.
  constructor; try reflexivity. constructor.
Qed.

Ltac norm_app :=
  rewrite ?flat_map_app; cbn [flat_map sends]; rewrite ?app_nil_r, <- ?app_assoc;
  cbn [app].

Ltac norm_app_in H :=
  rewrite ?flat_map_app in H; cbn [flat_map sends] in H;
  rewrite ?app_nil_r, <- ?app_assoc in H; cbn [app] in H.

Ltac inv_fields :=
  constructor; unfold phase_ok, unspawned;
  cbn [pc closer goroutines results mem_config mem_commands wg results_cap
       results_closed commandResults]; try assumption; try reflexivity.

(** No path through the goroutine body assigns to an element of
    [config.Hosts] or of [commands]. *)
Hypothesis quiet_body : forall r config commands host,
  stores (trace (snd (body r config commands host start))) = [].

Lemma inv_step config commands c s s' :
  Inv body w config commands s -> step body w c s = Next s' ->
  Inv body w config commands s'.
Proof.
  intros [Hcfg Hcmd Hcap Hwg Hph Hquiet Hres]. unfold step, phase_ok, unspawned in *.
  destruct c as [| |k].
  - destruct (pc s) eqn:Hpc.
    + destruct (nth_error (Hosts (mem_config s)) i) as [host|] eqn:Hn;
        intros H; step_inv H.
      * rewrite (skipn_nth_error _ _ (scripts_nth_error _ (mem_commands s) _ Hn)) in Hres.
        inv_fields.
        -- rewrite length_app. cbn [List.length]. lia.
        -- apply Forall_app. split; [assumption|]. constructor; [|constructor].
           apply quiet_body.
        -- norm_app. norm_app_in Hres. exact Hres.
      * rewrite (scripts_skipn_all _ (mem_commands s) _ Hn) in Hres.
        inv_fields.
    + intros H; step_inv H. inv_fields.
      destruct (closer s); try contradiction; assumption.
    + destruct (results s) as [|res q] eqn:Hr.
      * destruct (results_closed s) eqn:Hcl; intros H; step_inv H. inv_fields.
        destruct (closer s); try contradiction; try discriminate.
        destruct Hph as [_ Hg]. auto.
      * intros H; step_inv H. inv_fields.
        norm_app. norm_app_in Hres. exact Hres.
    + discriminate.
  - destruct (closer s) eqn:Hc; try discriminate.
    destruct (wg s =? 0)%nat eqn:Hz; intros H; step_inv H.
    apply Nat.eqb_eq in Hz. inv_fields.
    destruct (pc s); try contradiction. split; [reflexivity|].
    apply length_zero_iff_nil. congruence.
  - destruct (nth_error (goroutines s) k) as [g|] eqn:Hk; try discriminate.
    assert (Hne : goroutines s <> []).
    { intros E. rewrite E in Hk. destruct k; discriminate. }
    pose proof (split_nth_error _ _ Hk) as Hsplit.
    pose proof (quiet_nth _ Hquiet Hk) as Hns.
    rewrite Hsplit in Hres.
    destruct g as [|e todo].
    + destruct (wg s) as [|n] eqn:Hw; intros H; step_inv H. inv_fields.
      * pose proof (length_remove_nth _ _ Hk). lia.
      * destruct (pc s), (closer s); try contradiction; try assumption;
          exfalso; apply Hne; tauto.
      * eapply quiet_remove; eauto.
      * unfold remove_nth. norm_app. norm_app_in Hres. exact Hres.
    + assert (Hstep : forall rs',
                 Permutation
                   (commandResults s ++ rs' ++
                    flat_map sends (replace_nth k todo (goroutines s)) ++
                    flat_map sends
                      match pc s with
                      | Spawning i => skipn i (scripts body w (mem_config s) (mem_commands s))
                      | _ => []
                      end)
                   (flat_map sends (scripts body w config commands)) ->
                 Inv body w config commands
                   (Build_State (mem_config s) (mem_commands s) (pc s) (wg s) rs'
                      (results_cap s) (results_closed s)
                      (replace_nth k todo (goroutines s)) (closer s) (commandResults s))).
      { intros rs' HP. inv_fields.
        - rewrite (length_replace_nth _ _ _ Hk). exact Hwg.
        - destruct (pc s), (closer s); try contradiction; try assumption;
            exfalso; apply Hne; tauto.
        - eapply quiet_replace; eauto. }
      destruct e; try solve [cbn [stores] in Hns; discriminate Hns];
        try (intros H; step_inv H; apply Hstep; unfold replace_nth;
             norm_app; norm_app_in Hres; exact Hres).
      destruct (results_closed s); try discriminate.
      destruct (List.length (results s) <? results_cap s)%nat; try discriminate.
      intros H; step_inv H. apply Hstep. unfold replace_nth.
      norm_app. norm_app_in Hres.
      eapply Permutation_trans; [|exact Hres].
      do 2 apply Permutation_app_head. apply Permutation_middle.
Qed.

Lemma reachable_inv config commands s :
  reachable body w config commands s -> Inv body w config commands s.
Proof.
  induction 1 as [|c s s' _ IH Hs]; [apply inv_init | eapply inv_step; eauto].
Qed.

(** No send on a closed channel, no negative WaitGroup counter. *)
Lemma inv_no_panic config commands c s :
  Inv body w config commands s -> step body w c s <> Panic.
Proof.
  intros [Hcfg Hcmd Hcap Hwg Hph Hquiet Hres]. unfold step, phase_ok in *.
  destruct c as [| |k].
  - destruct (pc s); try discriminate.
    + destruct (nth_error _ _); discriminate.
    + destruct (results s); try discriminate. destruct (results_closed s); discriminate.
  - destruct (closer s); try discriminate. destruct (wg s =? 0)%nat; discriminate.
  - destruct (nth_error (goroutines s) k) as [g|] eqn:Hk; try discriminate.
    assert (Hne : goroutines s <> []).
    { intros E. rewrite E in Hk. destruct k; discriminate. }
    destruct g as [|e todo].
    + destruct (wg s) eqn:Hw; try discriminate.
      destruct (goroutines s); [congruence | discriminate].
    + pose proof (quiet_nth _ Hquiet Hk) as Hns.
      destruct e; try discriminate; try solve [cbn [stores] in Hns; discriminate Hns].
      destruct (results_closed s) eqn:Hcl.
      * exfalso. destruct (pc s), (closer s); try contradiction; try discriminate;
          apply Hne; tauto.
      * destruct (List.length (results s) <? results_cap s)%nat; discriminate.
Qed.

Lemma run_reachable config commands cs s s' :
  reachable body w config commands s -> run body w cs s = Some s' ->
  reachable body w config commands s'.
Proof.
  revert s; induction cs as [|c cs IH]; intros s Hr H; simpl in H.
  - now inversion H; subst.
  - destruct (step body w c s) as [s1| |] eqn:Hs; try discriminate.
    eapply IH; [|exact H]. eapply reach_step; eauto.
Qed.

Lemma run_bounded config commands cs s s' :
  Inv body w config commands s ->
  run body w cs s = Some s' -> List.length cs + measure body w s' <= measure body w s.
Proof.
  revert s; induction cs as [|c cs IH]; intros s HI H; simpl in H.
  - inversion H; subst. simpl. lia.
  - destruct (step body w c s) as [s1| |] eqn:Hs; try discriminate.
    pose proof (@step_decreases _ _ _ _ _ HI Hs).
    pose proof (@inv_step _ _ _ _ _ HI Hs) as HI1.
    specialize (IH s1 HI1 H). simpl. lia.
Qed.

Section OneSend.
(** Every path through the goroutine body sends exactly once. *)
Hypothesis one_send : forall r config commands host,
  List.length (sends (trace (snd (body r config commands host start)))) = 1.

Lemma flat_map_length_one {A B} (f : A -> list B) (l : list A) :
  (forall x, List.length (f x) = 1) -> List.length (flat_map f l) = List.length l.
Proof.
  intros H. induction l as [|x l IH]; simpl; [reflexivity|].
  rewrite length_app, H, IH. reflexivity.
Qed.

Lemma sent_length config commands :
  List.length (flat_map sends (scripts body w config commands)) = List.length (Hosts config).
Proof.
  unfold scripts. rewrite flat_map_concat_map, map_map, <- flat_map_concat_map.
  rewrite flat_map_length_one; [apply length_combine_seq|].
  intros [i host]. apply one_send.
Qed.

(** While the function has not returned, somebody can move. *)
Lemma inv_progress config commands s :
  Inv body w config commands s -> pc s <> Returned ->
  exists c s', step body w c s = Next s'.
Proof.
  intros [Hcfg Hcmd Hcap Hwg Hph Hquiet Hres] Hpc. unfold phase_ok in Hph.
  destruct (pc s) eqn:E; try congruence.
  - exists RunMain. unfold step. rewrite E.
    destruct (nth_error _ _); eauto.
  - exists RunMain. unfold step. rewrite E. eauto.
  - destruct (results s) as [|res q] eqn:Hr.
    + destruct (results_closed s) eqn:Hcl.
      * exists RunMain. unfold step. rewrite E, Hr, Hcl. eauto.
      * destruct (closer s) eqn:Hc; try contradiction; [|destruct Hph; discriminate].
        destruct (goroutines s) as [|g gs] eqn:Hg.
        -- exists RunCloser. unfold step. rewrite Hc, Hwg. simpl. eauto.
        -- exists (RunHost 0). unfold step. rewrite Hg. cbn [nth_error].
           destruct g as [|e todo].
           ++ rewrite Hwg. simpl. eauto.
           ++ assert (Hns : stores (e :: todo) = []).
              { inversion Hquiet; assumption. }
              destruct e; eauto; try solve [cbn [stores] in Hns; discriminate Hns].
              rewrite Hcl, Hr.
              apply Permutation_length in Hres.
              rewrite sent_length in Hres. rewrite !length_app in Hres.
              cbn [flat_map sends] in Hres. rewrite length_app in Hres.
              cbn [List.length] in Hres.
              assert (Hlt : (List.length (@nil CommandResult) <? results_cap s)%nat = true).
              { apply Nat.ltb_lt. cbn [List.length]. lia. }
              rewrite Hlt. eauto.
    + exists RunMain. unfold step. rewrite E, Hr. eauto.
Qed.

(** From every reachable state some schedule leads to the return. *)
Lemma can_return config commands s :
  reachable body w config commands s ->
  exists cs s', run body w cs s = Some s' /\ pc s' = Returned.
Proof.
  remember (measure body w s) as m eqn:Hm. revert s Hm.
  induction m as [m IH] using lt_wf_ind. intros s Hm Hr.
  destruct (pc s) eqn:E;
    try (destruct (@inv_progress config commands s (reachable_inv Hr)) as (c & s1 & Hs);
         [congruence|];
         destruct (IH (measure body w s1)) with (s := s1) as (cs & s' & Hrun & Hret);
         [subst m; eapply step_decreases; eauto using reachable_inv | reflexivity
         | eapply reach_step; eauto |];
         exists (c :: cs), s'; simpl; rewrite Hs; auto).
  exists [], s. auto.
Qed.

(** The function can return, and what it returns is, up to order, what the
    goroutines sent. *)
Lemma returns_exists config commands :
  exists res, returns body w config commands res.
Proof.
  destruct (@can_return config commands _ (reach_init body w config commands))
    as (cs & s' & Hrun & Hret).
  exists (commandResults s'), s'. repeat split; auto.
  eapply run_reachable; [apply reach_init | exact Hrun].
Qed.

End OneSend.

Lemma returns_perm config commands res :
  returns body w config commands res ->
  Permutation res (flat_map sends (scripts body w config commands)).
Proof.
  intros (s & Hr & Hpc & Hres). subst res.
  destruct (reachable_inv Hr) as [Hcfg Hcmd Hcap Hwg Hph Hquiet HP].
  unfold phase_ok, unspawned in *. rewrite Hpc in *.
  destruct (closer s); try contradiction. destruct Hph as (_ & Hg & Hq).
  rewrite Hg, Hq in HP. cbn [flat_map app] in HP. rewrite app_nil_r in HP. exact HP.
Qed.

End SchedulerFacts.

(** ** Strings and traces *)

Lemma append_assoc (a b c : string) : (a +:+ b) +:+ c = a +:+ (b +:+ c).
Proof. induction a as [|ch a IH]; simpl; [reflexivity | now rewrite IH]. Qed.

Lemma append_nil_r (a : string) : a +:+ "" = a.
Proof. induction a as [|ch a IH]; simpl; [reflexivity | now rewrite IH]. Qed.

Lemma dials_app t1 t2 : dials (t1 ++ t2) = dials t1 ++ dials t2.
Proof.
  induction t1 as [|e t1 IH]; simpl; [reflexivity|].
  destruct e; simpl; rewrite ?IH; reflexivity.
Qed.

Lemma session_events_silent ext :
  forallb session_event ext = true -> sends ext = [] /\ dials ext = [].
Proof.
  induction ext as [|e ext IH]; simpl; [auto|].
  intros H. apply andb_true_iff in H as [He Hext].
  destruct e; simpl in *; try discriminate; auto.
Qed.

Lemma filter_session_events ext :
  forallb session_event ext = true -> filter session_event ext = ext.
Proof.
  induction ext as [|e ext IH]; simpl; [auto|].
  intros H. apply andb_true_iff in H as [He Hext]. rewrite He, IH; auto.
Qed.

Lemma indexed_from_cons n cmd rest :
  indexed_from n (cmd :: rest) = (n, cmd) :: indexed_from (S n) rest.
Proof. reflexivity. Qed.

Ltac task_unfold :=
  unfold NewSession, StdoutPipe, Start, ReadAll, Wait, SessionClose, ClientClose,
    send, ReadFile, ParsePrivateKey, Dial;
  unfold bind, perform, ret; cbn [fst snd sessions trace].

(** ** The refactored goroutine body *)

Lemma Refactored_executeCommand_spec r client cmd l :
  fst (Refactored.executeCommand r client cmd l) =
    match command_outcome r client (sessions l) cmd with
    | SessionFails e => Err ("session: " +:+ e)
    | PipeFails e => Err ("stdout pipe: " +:+ e)
    | StartFails e => Err ("start command: " +:+ e)
    | Completes out _ _ => Ok out
    end /\
  sessions (snd (Refactored.executeCommand r client cmd l)) = S (sessions l) /\
  exists ext,
    trace (snd (Refactored.executeCommand r client cmd l)) = trace l ++ ext /\
    forallb session_event ext = true.
Proof.
  unfold Refactored.executeCommand, command_outcome. task_unfold.
  destruct (ssh_NewSession r client (sessions l)) as [session|e]; cbn [fst snd sessions trace].
  2:{ repeat split. eexists; split; [reflexivity|reflexivity]. }
  destruct (ssh_StdoutPipe r session) as [stdout|e]; cbn [fst snd sessions trace].
  2:{ repeat split. rewrite <- !app_assoc. eexists; split; [reflexivity|reflexivity]. }
  destruct (ssh_Start r session cmd) as [e|]; cbn [fst snd sessions trace].
  { repeat split. rewrite <- !app_assoc. eexists; split; [reflexivity|reflexivity]. }
  repeat split. rewrite <- !app_assoc. eexists; split; [reflexivity|reflexivity].
Qed.

Lemma Refactored_commandLoop_cons r client cmd rest acc l :
  Refactored.commandLoop r client (cmd :: rest) acc l =
    match fst (Refactored.executeCommand r client cmd l) with
    | Err err => Refactored.commandLoop r client rest (acc +:+ failed_note cmd err)
    | Ok output => Refactored.commandLoop r client rest (acc +:+ labeled_output cmd output)
    end (snd (Refactored.executeCommand r client cmd l)).
Proof.
  cbn [Refactored.commandLoop]. unfold bind at 1.
  destruct (Refactored.executeCommand r client cmd l) as [[output|err] l1]; reflexivity.
Qed.

Lemma Refactored_commandLoop_spec r client commands acc l :
  fst (Refactored.commandLoop r client commands acc l) =
    acc +:+ join (map (Refactored.entry r client) (indexed_from (sessions l) commands)) /\
  exists ext,
    trace (snd (Refactored.commandLoop r client commands acc l)) = trace l ++ ext /\
    forallb session_event ext = true.
Proof.
  revert acc l. induction commands as [|cmd rest IH]; intros acc l.
  - simpl. unfold ret. simpl. rewrite append_nil_r. split; [reflexivity|].
    exists []. rewrite app_nil_r. auto.
  - rewrite Refactored_commandLoop_cons.
    destruct (Refactored_executeCommand_spec r client cmd l) as (Hres & Hn & ext1 & Ht1 & Hq1).
    rewrite Hres. clear Hres.
    set (l1 := snd (Refactored.executeCommand r client cmd l)) in *.
    rewrite indexed_from_cons. cbn [map join fold_right].
    fold (join (map (Refactored.entry r client) (indexed_from (S (sessions l)) rest))).
    change (Refactored.entry r client (sessions l, cmd)) with
      (match command_outcome r client (sessions l) cmd with
       | SessionFails e => failed_note cmd ("session: " +:+ e)
       | PipeFails e => failed_note cmd ("stdout pipe: " +:+ e)
       | StartFails e => failed_note cmd ("start command: " +:+ e)
       | Completes out _ _ => labeled_output cmd out
       end).
    assert (Hgoal : forall acc',
      fst (Refactored.commandLoop r client rest acc' l1) =
        acc' +:+ join (map (Refactored.entry r client) (indexed_from (S (sessions l)) rest)) /\
      exists ext,
        trace (snd (Refactored.commandLoop r client rest acc' l1)) = trace l ++ ext /\
        forallb session_event ext = true).
    { intros acc'. destruct (IH acc' l1) as (Hf & ext2 & Ht2 & Hq2).
      rewrite Hn in Hf. split; [exact Hf|].
      exists (ext1 ++ ext2). rewrite Ht2, Ht1, app_assoc. split; [reflexivity|].
      rewrite forallb_app, Hq1, Hq2. reflexivity. }
    destruct (command_outcome r client (sessions l) cmd);
      match goal with
      | |- fst (Refactored.commandLoop _ _ _ ?a _) = _ /\ _ =>
          destruct (Hgoal a) as [Hf He]; split; [rewrite Hf; apply append_assoc | exact He]
      end.
Qed.

Lemma Refactored_setupSSHClient_spec r host config :
  let res := Refactored.setupSSHClient r host config start in
  fst res =
    match setup r config host with
    | NoCredential => Err "no auth method"
    | KeyUnreadable e => Err ("read key: " +:+ e)
    | KeyInvalid e => Err ("parse key: " +:+ e)
    | DialFails _ e => Err e
    | Connected _ client => Ok client
    end /\
  sessions (snd res) = 0 /\
  sends (trace (snd res)) = [] /\
  dials (trace (snd res)) = dialed_with r config host /\
  filter session_event (trace (snd res)) = [].
Proof.
  unfold Refactored.setupSSHClient, dialed_with, setup, dial_outcome, start. task_unfold.
  destruct (negb (KeyPath config =? "")%string).
  - cbn [fst snd sessions trace app].
    destruct (os_ReadFile r (KeyPath config)) as [pem|e]; cbn [fst snd sessions trace app];
      [|repeat split].
    destruct (ssh_ParsePrivateKey r pem) as [signer|e]; cbn [fst snd sessions trace app];
      [|repeat split].
    destruct (ssh_Dial r "tcp" (address host config) (clientConfig config (PublicKeys signer)));
      repeat split.
  - destruct (negb (Password config =? "")%string); cbn [fst snd sessions trace app];
      [|repeat split].
    destruct (ssh_Dial r "tcp" (address host config)
                (clientConfig config (PasswordAuth (Password config))));
      repeat split.
Qed.

(** What the refactored goroutine sends, dials and attempts. *)
Lemma Refactored_goroutine_spec r config commands host :
  let t := trace (snd (Refactored.goroutine r config commands host start)) in
  sends t = [Refactored.report r config commands host] /\
  dials t = dialed_with r config host /\
  (host_level_failure r config host = true -> filter session_event t = []).
Proof.
  cbv zeta. remember (Refactored.goroutine r config commands host start) as g eqn:Hg.
  unfold Refactored.goroutine in Hg. unfold bind at 1 in Hg.
  destruct (Refactored_setupSSHClient_spec r host config) as (Hres & Hn & Hs & Hd & Hf).
  cbv zeta in *.
  destruct (Refactored.setupSSHClient r host config start) as [res l0].
  cbn [fst snd] in *. unfold Refactored.report, host_level_failure.
  destruct (setup r config host) as [|e|e|auth e|auth client] eqn:Hsetup; subst res.
  1-4: unfold send, perform in Hg; subst g; cbn [fst snd sessions trace];
       rewrite sends_app, dials_app, filter_app, Hs, Hd, Hf; repeat split;
       rewrite ?app_nil_r; reflexivity.
  unfold bind at 1 in Hg.
  destruct (Refactored_commandLoop_spec r client commands "" l0) as (Hout & ext & Ht & Hq).
  destruct (Refactored.commandLoop r client commands "" l0) as [out l1].
  cbn [fst snd] in *. unfold send, ClientClose, bind, perform in Hg.
  subst g. cbn [fst snd sessions trace].
  rewrite Hn in Hout. rewrite Ht, Hout.
  destruct (session_events_silent _ Hq) as [Hse Hde].
  rewrite !sends_app, !dials_app, Hs, Hd, Hse, Hde. cbn [sends dials app].
  rewrite !app_nil_r.
  split; [reflexivity | split; [reflexivity | intros; discriminate]].
Qed.

(** ** The inline goroutine body *)

Lemma Inline_commandLoop_cons r client cmd rest acc l :
  exists l1 ext1,
    Inline.commandLoop r client (cmd :: rest) acc l =
      match command_outcome r client (sessions l) cmd with
      | SessionFails e => (inr ("session: " +:+ e), l1)
      | PipeFails e => (inr ("stdout pipe: " +:+ e), l1)
      | StartFails e => Inline.commandLoop r client rest (acc +:+ failed_note cmd e) l1
      | Completes out _ _ =>
          Inline.commandLoop r client rest (acc +:+ labeled_output cmd out) l1
      end /\
    sessions l1 = S (sessions l) /\
    trace l1 = trace l ++ ext1 /\
    forallb session_event ext1 = true.
Proof.
  cbn [Inline.commandLoop]. unfold command_outcome. task_unfold.
  destruct (ssh_NewSession r client (sessions l)) as [session|e];
    [destruct (ssh_StdoutPipe r session) as [stdout|e];
     [destruct (ssh_Start r session cmd) as [e|]|]|];
    eexists; eexists; (split; [reflexivity|]); cbn [sessions trace];
    (split; [reflexivity|]); rewrite <- ?app_assoc;
    (split; [reflexivity|]); reflexivity.
Qed.

Lemma Inline_commandLoop_spec r client commands acc l :
  fst (Inline.commandLoop r client commands acc l) =
    match first_some (Inline.abort r client) (indexed_from (sessions l) commands) with
    | Some e => inr e
    | None =>
        inl (acc +:+ join (map (Inline.entry r client) (indexed_from (sessions l) commands)))
    end /\
  exists ext,
    trace (snd (Inline.commandLoop r client commands acc l)) = trace l ++ ext /\
    forallb session_event ext = true.
Proof.
  revert acc l. induction commands as [|cmd rest IH]; intros acc l.
  - simpl. unfold ret. simpl. rewrite append_nil_r. split; [reflexivity|].
    exists []. rewrite app_nil_r. auto.
  - destruct (Inline_commandLoop_cons r client cmd rest acc l)
      as (l1 & ext1 & Heq & Hn & Ht1 & Hq1).
    rewrite Heq. clear Heq.
    rewrite indexed_from_cons. cbn [map join fold_right first_some].
    fold (join (map (Inline.entry r client) (indexed_from (S (sessions l)) rest))).
    unfold Inline.abort at 1. unfold Inline.entry at 1. cbn [fst snd].
    assert (Hgoal : forall acc',
      fst (Inline.commandLoop r client rest acc' l1) =
        match first_some (Inline.abort r client) (indexed_from (S (sessions l)) rest) with
        | Some e => inr e
        | None =>
            inl (acc' +:+ join (map (Inline.entry r client)
                                  (indexed_from (S (sessions l)) rest)))
        end /\
      exists ext,
        trace (snd (Inline.commandLoop r client rest acc' l1)) = trace l ++ ext /\
        forallb session_event ext = true).
    { intros acc'. destruct (IH acc' l1) as (Hf & ext2 & Ht2 & Hq2).
      rewrite Hn in Hf. split; [exact Hf|].
      exists (ext1 ++ ext2). rewrite Ht2, Ht1, app_assoc. split; [reflexivity|].
      rewrite forallb_app, Hq1, Hq2. reflexivity. }
    destruct (command_outcome r client (sessions l) cmd); cbn [fst snd].
    + split; [reflexivity|]. exists ext1. auto.
    + split; [reflexivity|]. exists ext1. auto.
    + destruct (Hgoal (acc +:+ failed_note cmd e)) as [Hf He]. split; [|exact He].
      rewrite Hf. destruct (first_some _ _); [reflexivity|]. now rewrite append_assoc.
    + destruct (Hgoal (acc +:+ labeled_output cmd out)) as [Hf He]. split; [|exact He].
      rewrite Hf. destruct (first_some _ _); [reflexivity|]. now rewrite append_assoc.
Qed.

Ltac task_unfold_in H :=
  unfold NewSession, StdoutPipe, Start, ReadAll, Wait, SessionClose, ClientClose,
    send, ReadFile, ParsePrivateKey, Dial in H;
  unfold bind, perform, ret in H; cbn [fst snd sessions trace app] in H.

(** What the inline goroutine sends, dials and attempts. *)
Lemma Inline_goroutine_spec r config commands host :
  let t := trace (snd (Inline.goroutine r config commands host start)) in
  sends t = [Inline.report r config commands host] /\
  dials t = dialed_with r config host /\
  (host_level_failure r config host = true -> filter session_event t = []).
Proof.
  cbv zeta. remember (Inline.goroutine r config commands host start) as g eqn:Hg.
  unfold Inline.goroutine, Inline.chooseAuth, start in Hg. task_unfold_in Hg.
  unfold Inline.report, host_level_failure, dialed_with, setup, dial_outcome.
  assert (Hconn : forall g' auth client l0,
    sessions l0 = 0 -> sends (trace l0) = [] -> dials (trace l0) = [clientConfig config auth] ->
    g' = (let (a, l') := Inline.commandLoop r client commands "" l0 in
         let (_, l'0) :=
           match a with
           | inl combinedOutput =>
               fun l : Local =>
               (tt, {| sessions := sessions l;
                       trace := trace l ++
                         [EvSend (set_Output {| Hostname := host; Output := ""; Error := None |}
                                    combinedOutput)] |})
           | inr e =>
               fun l : Local =>
               (tt, {| sessions := sessions l;
                       trace := trace l ++
                         [EvSend (set_Error {| Hostname := host; Output := ""; Error := None |}
                                    e)] |})
           end l' in
         (tt, {| sessions := sessions l'0; trace := trace l'0 ++ [EvClientClose client] |})) ->
    sends (trace (snd g')) =
      [match first_some (Inline.abort r client) (indexed commands) with
       | Some e => failed host e
       | None => {| Hostname := host;
                    Output := join (map (Inline.entry r client) (indexed commands));
                    Error := None |}
       end] /\
    dials (trace (snd g')) = [clientConfig config auth] /\
    (false = true -> filter session_event (trace (snd g')) = [])).
  { intros g' auth client l0 Hn Hs Hd Heq.
    destruct (Inline_commandLoop_spec r client commands "" l0) as (Hout & ext & Ht & Hq).
    destruct (Inline.commandLoop r client commands "" l0) as [out l1].
    cbn [fst snd] in *. rewrite Hn in Hout. fold (indexed commands) in Hout.
    destruct (session_events_silent _ Hq) as [Hse Hde].
    destruct (first_some (Inline.abort r client) (indexed commands)) as [e|];
      subst out g'; cbn [fst snd sessions trace];
      rewrite Ht, !sends_app, !dials_app, Hs, Hd, Hse, Hde; cbn [sends dials app];
      (split; [reflexivity | split; [reflexivity | intros; discriminate]]). }
  destruct (negb (KeyPath config =? "")%string).
  - destruct (os_ReadFile r (KeyPath config)) as [pem|e].
    2:{ subst g. cbn. repeat split. }
    destruct (ssh_ParsePrivateKey r pem) as [signer|e].
    2:{ subst g. cbn. repeat split. }
    destruct (ssh_Dial r "tcp" (address host config) (clientConfig config (PublicKeys signer)))
      as [client|e].
    2:{ subst g. cbn. repeat split. }
    eapply Hconn; [| | |exact Hg]; reflexivity.
  - destruct (negb (Password config =? "")%string).
    2:{ subst g. cbn. repeat split. }
    destruct (ssh_Dial r "tcp" (address host config)
                (clientConfig config (PasswordAuth (Password config)))) as [client|e].
    2:{ subst g. cbn. repeat split. }
    eapply Hconn; [| | |exact Hg]; reflexivity.
Qed.

(** ** The complete call sequence of a host goroutine *)

Lemma Refactored_executeCommand_full r client cmd l :
  Refactored.executeCommand r client cmd l =
  (match command_outcome r client (sessions l) cmd with
   | SessionFails e => Err ("session: " +:+ e)
   | PipeFails e => Err ("stdout pipe: " +:+ e)
   | StartFails e => Err ("start command: " +:+ e)
   | Completes out _ _ => Ok out
   end,
   {| sessions := S (sessions l);
      trace := trace l ++ command_events r client (sessions l, cmd) |}).
Proof.
  unfold Refactored.executeCommand, command_outcome, command_events. task_unfold.
  destruct (ssh_NewSession r client (sessions l)) as [session|e];
    [destruct (ssh_StdoutPipe r session) as [stdout|e];
     [destruct (ssh_Start r session cmd) as [e|]|]|];
    cbn [fst snd sessions trace]; rewrite <- ?app_assoc; reflexivity.
Qed.

Lemma Refactored_commandLoop_trace r client commands acc l :
  trace (snd (Refactored.commandLoop r client commands acc l)) =
  trace l ++ flat_map (command_events r client) (indexed_from (sessions l) commands).
Proof.
  revert acc l. induction commands as [|cmd rest IH]; intros acc l.
  - cbn. now rewrite app_nil_r.
  - rewrite Refactored_commandLoop_cons, Refactored_executeCommand_full. cbn [fst snd].
    rewrite indexed_from_cons. cbn [flat_map].
    destruct (command_outcome r client (sessions l) cmd);
      rewrite IH; cbn [sessions trace]; now rewrite <- app_assoc.
Qed.

Lemma Inline_commandLoop_trace r client commands acc l :
  trace (snd (Inline.commandLoop r client commands acc l)) =
  trace l ++
  flat_map (command_events r client)
    (upto_abort r client (indexed_from (sessions l) commands)).
Proof.
  revert acc l. induction commands as [|cmd rest IH]; intros acc l.
  - cbn. now rewrite app_nil_r.
  - rewrite indexed_from_cons. cbn [upto_abort].
    unfold Inline.abort at 1, command_outcome. cbn [fst snd].
    cbn [Inline.commandLoop]. task_unfold.
    destruct (ssh_NewSession r client (sessions l)) as [session|e] eqn:Hn;
      [destruct (ssh_StdoutPipe r session) as [stdout|e] eqn:Hp;
       [destruct (ssh_Start r session cmd) as [e|] eqn:Hst|]|];
      cbn [fst snd sessions trace flat_map]; unfold command_events; cbn [fst snd];
      rewrite ?Hn, ?Hp, ?Hst; rewrite ?IH; cbn [sessions trace];
      rewrite <- ?app_assoc, ?app_nil_r; reflexivity.
Qed.

Lemma Refactored_setupSSHClient_full r host config :
  Refactored.setupSSHClient r host config start =
  (match setup r config host with
   | NoCredential => Err "no auth method"
   | KeyUnreadable e => Err ("read key: " +:+ e)
   | KeyInvalid e => Err ("parse key: " +:+ e)
   | DialFails _ e => Err e
   | Connected _ client => Ok client
   end,
   {| sessions := 0; trace := setup_events r config host |}).
Proof.
  unfold Refactored.setupSSHClient, setup, setup_events, dial_outcome, start. task_unfold.
  destruct (negb (KeyPath config =? "")%string).
  - cbn [fst snd sessions trace app].
    destruct (os_ReadFile r (KeyPath config)) as [pem|e]; cbn [fst snd sessions trace app];
      [|reflexivity].
    destruct (ssh_ParsePrivateKey r pem) as [signer|e]; cbn [fst snd sessions trace app];
      [|reflexivity].
    destruct (ssh_Dial r "tcp" (address host config) (clientConfig config (PublicKeys signer)));
      reflexivity.
  - destruct (negb (Password config =? "")%string); cbn [fst snd sessions trace app];
      [|reflexivity].
    destruct (ssh_Dial r "tcp" (address host config)
                (clientConfig config (PasswordAuth (Password config))));
      reflexivity.
Qed.

(** Everything the refactored goroutine does, in order. *)
Lemma Refactored_script r config commands host :
  trace (snd (Refactored.goroutine r config commands host start)) =
  setup_events r config host ++
  match setup r config host with
  | Connected _ client =>
      flat_map (command_events r client) (indexed commands) ++
      [EvSend (Refactored.report r config commands host); EvClientClose client]
  | _ => [EvSend (Refactored.report r config commands host)]
  end.
Proof.
  unfold Refactored.goroutine. unfold bind at 1.
  rewrite Refactored_setupSSHClient_full. unfold Refactored.report.
  destruct (setup r config host) as [|e|e|auth e|auth client]; try reflexivity.
  unfold bind at 1.
  pose proof (Refactored_commandLoop_trace r client commands ""
                {| sessions := 0; trace := setup_events r config host |}) as Ht.
  destruct (Refactored_commandLoop_spec r client commands ""
              {| sessions := 0; trace := setup_events r config host |}) as [Hout _].
  destruct (Refactored.commandLoop r client commands ""
              {| sessions := 0; trace := setup_events r config host |}) as [out l1].
  cbn [fst snd sessions trace] in *. unfold send, ClientClose, bind, perform.
  cbn [fst snd sessions trace]. rewrite Ht, Hout. fold (indexed commands).
  rewrite <- !app_assoc. reflexivity.
Qed.

(** Everything the inline goroutine does, in order. *)
Lemma Inline_script r config commands host :
  trace (snd (Inline.goroutine r config commands host start)) =
  setup_events r config host ++
  match setup r config host with
  | Connected _ client =>
      flat_map (command_events r client) (upto_abort r client (indexed commands)) ++
      [EvSend (Inline.report r config commands host); EvClientClose client]
  | _ => [EvSend (Inline.report r config commands host)]
  end.
Proof.
  assert (Hconn : forall client l0, sessions l0 = 0 ->
    trace (snd (let (a, l') := Inline.commandLoop r client commands "" l0 in
         let (_, l'0) :=
           match a with
           | inl combinedOutput =>
               fun l : Local =>
               (tt, {| sessions := sessions l;
                       trace := trace l ++
                         [EvSend (set_Output {| Hostname := host; Output := ""; Error := None |}
                                    combinedOutput)] |})
           | inr e =>
               fun l : Local =>
               (tt, {| sessions := sessions l;
                       trace := trace l ++
                         [EvSend (set_Error {| Hostname := host; Output := ""; Error := None |}
                                    e)] |})
           end l' in
         (tt, {| sessions := sessions l'0; trace := trace l'0 ++ [EvClientClose client] |}))) =
    trace l0 ++
    flat_map (command_events r client) (upto_abort r client (indexed commands)) ++
    [EvSend
       match first_some (Inline.abort r client) (indexed commands) with
       | Some e => failed host e
       | None => {| Hostname := host;
                    Output := join (map (Inline.entry r client) (indexed commands));
                    Error := None |}
       end;
     EvClientClose client]).
  { intros client l0 H0.
    pose proof (Inline_commandLoop_trace r client commands "" l0) as Ht.
    destruct (Inline_commandLoop_spec r client commands "" l0) as [Hout _].
    rewrite H0 in Ht, Hout. fold (indexed commands) in Ht, Hout.
    destruct (Inline.commandLoop r client commands "" l0) as [out l1].
    cbn [fst snd] in *. subst out.
    destruct (first_some (Inline.abort r client) (indexed commands));
      cbn [fst snd sessions trace]; rewrite Ht, <- !app_assoc; reflexivity. }
  unfold Inline.goroutine, Inline.chooseAuth, start. task_unfold.
  unfold Inline.report, setup, setup_events, dial_outcome.
  destruct (negb (KeyPath config =? "")%string).
  - destruct (os_ReadFile r (KeyPath config)) as [pem|e]; [|reflexivity].
    destruct (ssh_ParsePrivateKey r pem) as [signer|e]; [|reflexivity].
    destruct (ssh_Dial r "tcp" (address host config) (clientConfig config (PublicKeys signer)))
      as [client|e]; [|reflexivity].
    rewrite Hconn; reflexivity.
  - destruct (negb (Password config =? "")%string); [|reflexivity].
    destruct (ssh_Dial r "tcp" (address host config)
                (clientConfig config (PasswordAuth (Password config)))) as [client|e];
      [|reflexivity].
    rewrite Hconn; reflexivity.
Qed.

Lemma setup_events_no_store r config host : stores (setup_events r config host) = [].
Proof.
  unfold setup_events.
  destruct (negb (KeyPath config =? "")%string).
  - destruct (os_ReadFile r (KeyPath config)) as [pem|e]; [|reflexivity].
    destruct (ssh_ParsePrivateKey r pem) as [signer|e]; reflexivity.
  - destruct (negb (Password config =? "")%string); reflexivity.
Qed.

Lemma command_events_no_store r client l :
  stores (flat_map (command_events r client) l) = [].
Proof.
  induction l as [|ic l IH]; [reflexivity|].
  cbn [flat_map]. rewrite stores_app, IH, app_nil_r. unfold command_events.
  destruct (ssh_NewSession r client (fst ic)) as [session|e]; [|reflexivity].
  destruct (ssh_StdoutPipe r session) as [stdout|e]; [|reflexivity].
  destruct (ssh_Start r session (snd ic)) as [e|]; reflexivity.
Qed.

(** Neither goroutine body assigns to an element of [config.Hosts] or of
    [commands]. *)
Lemma Inline_quiet r config commands host :
  stores (trace (snd (Inline.goroutine r config commands host start))) = [].
Proof.
  rewrite Inline_script, stores_app, setup_events_no_store.
  destruct (setup r config host); try reflexivity.
  cbn [app]. now rewrite stores_app, command_events_no_store.
Qed.

Lemma Refactored_quiet r config commands host :
  stores (trace (snd (Refactored.goroutine r config commands host start))) = [].
Proof.
  rewrite Refactored_script, stores_app, setup_events_no_store.
  destruct (setup r config host); try reflexivity.
  cbn [app]. now rewrite stores_app, command_events_no_store.
Qed.

(** ** From the goroutine body to the returned slice *)

Lemma map_snd_combine_seq {A} (l : list A) (a : nat) :
  map snd (combine (seq a (List.length l)) l) = l.
Proof.
  revert a; induction l as [|x l IH]; intros a; simpl; [reflexivity | now rewrite IH].
Qed.

Lemma nth_error_indexed (l : list string) (k : nat) (x : string) :
  nth_error l k = Some x -> nth_error (indexed l) k = Some (k, x).
Proof. intros H. unfold indexed, indexed_from. now rewrite (nth_error_combine_seq _ 0 _ H). Qed.


Lemma first_some_none {A B} (f : A -> option B) (l : list A) :
  first_some f l = None <-> (forall x, In x l -> f x = None).
Proof.
  induction l as [|y l IH]; simpl.
  - split; [intros _ x [] | reflexivity].
  - destruct (f y) eqn:Hy.
    + split; [discriminate|]. intros H. rewrite <- Hy. apply H. now left.
    + rewrite IH. split.
      * intros H x [<-|Hx]; auto.
      * intros H x Hx. apply H. now right.
Qed.

Section Versions.
Variable body : Remote -> SSHConfig -> list string -> string -> Task unit.
Variable report : Remote -> SSHConfig -> list string -> string -> CommandResult.
Variable w : World.

Hypothesis body_quiet : forall r config commands host,
  stores (trace (snd (body r config commands host start))) = [].
Hypothesis body_sends : forall r config commands host,
  sends (trace (snd (body r config commands host start))) = [report r config commands host].
Hypothesis report_hostname : forall r config commands host,
  Hostname (report r config commands host) = host.

Lemma sent_reports config commands :
  flat_map sends (scripts body w config commands) = reports report w config commands.
Proof.
  unfold scripts, reports, indexed, indexed_from, script.
  induction (combine (seq 0 (List.length (Hosts config))) (Hosts config)) as [|ih l IH];
    simpl; [reflexivity|].
  now rewrite body_sends, IH.
Qed.

Lemma returns_reports config commands res :
  returns body w config commands res ->
  Permutation res (reports report w config commands).
Proof. intros H. rewrite <- sent_reports. now apply (returns_perm body_quiet). Qed.

Lemma returns_some config commands : exists res, returns body w config commands res.
Proof. apply (@returns_exists body w body_quiet). intros. now rewrite body_sends. Qed.

Lemma reports_length config commands :
  List.length (reports report w config commands) = List.length (Hosts config).
Proof. unfold reports, indexed, indexed_from. rewrite length_map. apply length_combine_seq. Qed.

Lemma reports_hostnames config commands :
  map Hostname (reports report w config commands) = Hosts config.
Proof.
  unfold reports, indexed, indexed_from. rewrite map_map.
  rewrite <- (map_snd_combine_seq (Hosts config) 0) at 3.
  apply map_ext. intros [i host]. apply report_hostname.
Qed.

Lemma reports_nth_error config commands i host :
  nth_error (Hosts config) i = Some host ->
  nth_error (reports report w config commands) i = Some (report (w i) config commands host).
Proof.
  intros H. unfold reports. now rewrite nth_error_map, (nth_error_indexed _ _ H).
Qed.

Lemma returns_shape config commands res :
  returns body w config commands res ->
  List.length res = List.length (Hosts config) /\
  Permutation (map Hostname res) (Hosts config) /\
  (forall i host, nth_error (Hosts config) i = Some host ->
                  In (report (w i) config commands host) res).
Proof.
  intros H. apply returns_reports in H. repeat split.
  - rewrite (Permutation_length H). apply reports_length.
  - rewrite <- (reports_hostnames config commands). now apply Permutation_map.
  - intros i host Hi. eapply Permutation_in; [symmetry; exact H|].
    eapply nth_error_In. now apply reports_nth_error.
Qed.

(** A schedule that ends in the return is a run of the function. *)
Lemma run_returns config commands cs res :
  match run body w cs (init config commands) with
  | Some s => pc s = Returned /\ commandResults s = res
  | None => False
  end ->
  returns body w config commands res.
Proof.
  destruct (run body w cs (init config commands)) as [s|] eqn:Hrun; [|contradiction].
  intros [Hpc Hres]. exists s. repeat split; auto.
  eapply run_reachable; [apply reach_init | exact Hrun].
Qed.

End Versions.

(** The run under [pick] only goes through reachable states. *)
Lemma execute_reachable body w fuel config commands :
  match execute body w fuel config commands with
  | Some s => reachable body w config commands s
  | None => True
  end.
Proof.
  unfold execute.
  destruct (run body w (schedule body w fuel (init config commands)) (init config commands))
    as [s|] eqn:Hrun; [|exact I].
  eapply run_reachable; [apply reach_init | exact Hrun].
Qed.

Lemma Inline_sends r config commands host :
  sends (trace (snd (Inline.goroutine r config commands host start))) =
  [Inline.report r config commands host].
Proof. apply Inline_goroutine_spec. Qed.

Lemma Refactored_sends r config commands host :
  sends (trace (snd (Refactored.goroutine r config commands host start))) =
  [Refactored.report r config commands host].
Proof. apply Refactored_goroutine_spec. Qed.

Lemma Inline_report_hostname r config commands host :
  Hostname (Inline.report r config commands host) = host.
Proof.
  unfold Inline.report. destruct (setup r config host); try reflexivity.
  destruct (first_some _ _); reflexivity.
Qed.

Lemma Refactored_report_hostname r config commands host :
  Hostname (Refactored.report r config commands host) = host.
Proof. unfold Refactored.report. destruct (setup r config host); reflexivity. Qed.

(** Both versions, as instances of the transition system. *)
Lemma Inline_returns_shape w config commands res :
  Inline.ExecuteRemoteCommands w config commands res ->
  List.length res = List.length (Hosts config) /\
  Permutation (map Hostname res) (Hosts config) /\
  (forall i host, nth_error (Hosts config) i = Some host ->
                  In (Inline.report (w i) config commands host) res).
Proof.
  apply returns_shape;
    [apply Inline_quiet | apply Inline_sends | apply Inline_report_hostname].
Qed.

Lemma Refactored_returns_shape w config commands res :
  Refactored.ExecuteRemoteCommands w config commands res ->
  List.length res = List.length (Hosts config) /\
  Permutation (map Hostname res) (Hosts config) /\
  (forall i host, nth_error (Hosts config) i = Some host ->
                  In (Refactored.report (w i) config commands host) res).
Proof.
  apply returns_shape;
    [apply Refactored_quiet | apply Refactored_sends | apply Refactored_report_hostname].
Qed.

Lemma Inline_returns_reports w config commands res :
  Inline.ExecuteRemoteCommands w config commands res ->
  Permutation res (reports Inline.report w config commands).
Proof. apply returns_reports; [apply Inline_quiet | apply Inline_sends]. Qed.

Lemma Refactored_returns_reports w config commands res :
  Refactored.ExecuteRemoteCommands w config commands res ->
  Permutation res (reports Refactored.report w config commands).
Proof. apply returns_reports; [apply Refactored_quiet | apply Refactored_sends]. Qed.

Lemma Inline_returns_some w config commands :
  exists res, Inline.ExecuteRemoteCommands w config commands res.
Proof. eapply returns_some; [apply Inline_quiet | apply Inline_sends]. Qed.

Lemma Refactored_returns_some w config commands :
  exists res, Refactored.ExecuteRemoteCommands w config commands res.
Proof. eapply returns_some; [apply Refactored_quiet | apply Refactored_sends]. Qed.

(** The run of a sample under the scheduler [pick]. *)
Lemma Inline_execute_returns w config commands fuel res :
  match execute Inline.goroutine w fuel config commands with
  | Some s => pc s = Returned /\ commandResults s = res
  | None => False
  end ->
  Inline.ExecuteRemoteCommands w config commands res.
Proof. apply run_returns. Qed.

Lemma Refactored_execute_returns w config commands fuel res :
  match execute Refactored.goroutine w fuel config commands with
  | Some s => pc s = Returned /\ commandResults s = res
  | None => False
  end ->
  Refactored.ExecuteRemoteCommands w config commands res.
Proof. apply run_returns. Qed.

(** A result list of one host is determined. *)
Lemma Permutation_singleton_eq {A} (l : list A) (x : A) : Permutation l [x] -> l = [x].
Proof. intros H. apply Permutation_sym in H. now apply Permutation_length_1_inv in H. Qed.

(** ** Facts about the closed forms *)



Lemma Inline_report_error r config commands host :
  Error (Inline.report r config commands host) <> None ->
  Output (Inline.report r config commands host) = "".
Proof.
  unfold Inline.report. destruct (setup r config host); try reflexivity.
  destruct (first_some _ _); [reflexivity|]. simpl. congruence.
Qed.

Lemma Refactored_report_error r config commands host :
  Error (Refactored.report r config commands host) <> None ->
  Output (Refactored.report r config commands host) = "".
Proof.
  unfold Refactored.report. destruct (setup r config host); try reflexivity.
  simpl. congruence.
Qed.

Lemma in_reports report w config commands r :
  In r (reports report w config commands) ->
  exists i host, nth_error (Hosts config) i = Some host /\
                 r = report (w i) config commands host.
Proof.
  unfold reports. intros H. apply in_map_iff in H as ([i host] & <- & Hin).
  exists i, host. split; [|reflexivity].
  apply In_nth_error in Hin as [k Hk]. unfold indexed, indexed_from in Hk.
  destruct (nth_error (Hosts config) k) as [x|] eqn:Hx.
  - rewrite (nth_error_combine_seq _ 0 _ Hx) in Hk. inversion Hk; subst. exact Hx.
  - apply nth_error_None in Hx.
    assert (Hlen : k < List.length (combine (seq 0 (List.length (Hosts config))) (Hosts config))).
    { apply nth_error_Some. congruence. }
    rewrite length_combine_seq in Hlen. lia.
Qed.

(** ** The claims *)

(** C1.  For every host list (the empty one included) and every command list,
    ExecuteRemoteCommands returns, and what it returns holds exactly one
    Per-Host Result per input host: as many results as hosts whatever the
    hosts answer, their host names being the input hosts up to order, and the
    empty slice for no host.  This holds for both versions of the function. *)
Theorem C1_one_result_per_host (w : World) (config : SSHConfig) (commands : list string) :
  (exists res, Inline.ExecuteRemoteCommands w config commands res) /\
  (exists res, Refactored.ExecuteRemoteCommands w config commands res) /\
  forall res,
    Inline.ExecuteRemoteCommands w config commands res \/
    Refactored.ExecuteRemoteCommands w config commands res ->
    List.length res = List.length (Hosts config) /\
    Permutation (map Hostname res) (Hosts config) /\
    (Hosts config = [] -> res = []).
Proof.
  split; [apply Inline_returns_some|]. split; [apply Refactored_returns_some|].
  intros res H.
  assert (Hs : List.length res = List.length (Hosts config) /\
               Permutation (map Hostname res) (Hosts config)).
  { destruct H as [H|H];
      [apply Inline_returns_shape in H | apply Refactored_returns_shape in H]; tauto. }
  destruct Hs as [Hlen Hperm]. repeat split; auto.
  intros Hnil. rewrite Hnil in Hlen. now apply length_zero_iff_nil.
Qed.

Lemma C1_witness :
  Inline.ExecuteRemoteCommands (Sample.first_host Sample.unreachable)
    (Sample.config ["a"; "b"] "" "/key") Sample.commands
    [failed "a" "dial a: connection refused";
     {| Hostname := "b";
        Output := labeled_output "uname -a" "out" +:+ labeled_output "df -h" "out"
                  +:+ labeled_output "uptime" "out";
        Error := None |}] /\
  List.length
    [failed "a" "dial a: connection refused";
     {| Hostname := "b";
        Output := labeled_output "uname -a" "out" +:+ labeled_output "df -h" "out"
                  +:+ labeled_output "uptime" "out";
        Error := None |}] = 2.
Proof.
  assert (H : Inline.ExecuteRemoteCommands (Sample.first_host Sample.unreachable)
                (Sample.config ["a"; "b"] "" "/key") Sample.commands
                [failed "a" "dial a: connection refused";
                 {| Hostname := "b";
                    Output := labeled_output "uname -a" "out" +:+ labeled_output "df -h" "out"
                              +:+ labeled_output "uptime" "out";
                    Error := None |}]).
  { apply Inline_execute_returns with (fuel := 100). vm_compute. split; reflexivity. }
  split; [exact H|].
  exact (proj1 (proj2 (proj2 (@C1_one_result_per_host _ _ _)) _ (or_introl H))).
Defined.



(** C9.  In every Per-Host Result returned by either version, a terminal
    error that is set comes with an empty output blob.  In the inline version
    this covers the host whose session or stdout pipe fails after earlier
    commands produced output: that output is dropped. *)
Theorem C9_error_means_empty_output (w : World) (config : SSHConfig)
    (commands : list string) (res : list CommandResult) (r : CommandResult) :
  Inline.ExecuteRemoteCommands w config commands res \/
  Refactored.ExecuteRemoteCommands w config commands res ->
  In r res -> Error r <> None -> Output r = "".
Proof.
  intros [H|H] Hin He.
  - apply Inline_returns_reports in H.
    apply (Permutation_in _ H) in Hin. apply in_reports in Hin as (i & host & _ & ->).
    now apply Inline_report_error.
  - apply Refactored_returns_reports in H.
    apply (Permutation_in _ H) in Hin. apply in_reports in Hin as (i & host & _ & ->).
    now apply Refactored_report_error.
Qed.

Lemma C9_witness :
  Inline.ExecuteRemoteCommands (Sample.first_host Sample.no_second_session)
    (Sample.config ["a"] "" "/key") Sample.commands
    [failed "a" "session: open failed"] /\
  In (failed "a" "session: open failed") [failed "a" "session: open failed"] /\
  Error (failed "a" "session: open failed") <> None /\
  Output (failed "a" "session: open failed") = "".
Proof.
  assert (H : Inline.ExecuteRemoteCommands (Sample.first_host Sample.no_second_session)
                (Sample.config ["a"] "" "/key") Sample.commands
                [failed "a" "session: open failed"]).
  { apply Inline_execute_returns with (fuel := 100). vm_compute. split; reflexivity. }
  assert (Hin : In (failed "a" "session: open failed") [failed "a" "session: open failed"])
    by (left; reflexivity).
  assert (He : Error (failed "a" "session: open failed") <> None) by discriminate.
  split; [exact H|]. split; [exact Hin|]. split; [exact He|].
  exact (@C9_error_means_empty_output _ _ _ _ _ (or_introl H) Hin He).
Defined.

(** C10.  Neither version writes to its inputs.  The state of a run holds
    the configuration (the array behind config.Hosts with it) and the array
    behind commands, and a goroutine that assigns to an element of either
    changes them there.  Neither goroutine body makes such an assignment on
    any path, so in every state a run goes through, the return included,
    both are the ones passed in. *)
Theorem C10_inputs_unchanged (w : World) (config : SSHConfig) (commands : list string)
    (s : State) :
  reachable Inline.goroutine w config commands s \/
  reachable Refactored.goroutine w config commands s ->
  mem_config s = config /\ mem_commands s = commands.
Proof.
  intros [H|H];
    [apply (reachable_inv Inline_quiet) in H | apply (reachable_inv Refactored_quiet) in H];
    destruct H; auto.
Qed.

Lemma C10_witness :
  match execute Refactored.goroutine (Sample.first_host Sample.no_second_start) 100
          (Sample.config ["a"; "b"] "secret" "") Sample.commands with
  | Some s =>
      reachable Refactored.goroutine (Sample.first_host Sample.no_second_start)
        (Sample.config ["a"; "b"] "secret" "") Sample.commands s /\
      pc s = Returned /\
      mem_config s = Sample.config ["a"; "b"] "secret" "" /\
      mem_commands s = Sample.commands
  | None => False
  end.
Proof.
  generalize (execute_reachable Refactored.goroutine
                (Sample.first_host Sample.no_second_start) 100
                (Sample.config ["a"; "b"] "secret" "") Sample.commands).
  destruct (execute Refactored.goroutine (Sample.first_host Sample.no_second_start) 100
              (Sample.config ["a"; "b"] "secret" "") Sample.commands) as [s|] eqn:Hs.
  - intros Hr. split; [exact Hr|]. split.
    + revert Hs. vm_compute. intros Hs. inversion Hs. reflexivity.
    + exact (@C10_inputs_unchanged _ _ _ _ (or_intror Hr)).
  - revert Hs. vm_compute. discriminate.
Defined.

(** The statement is not empty: under a goroutine body that assigns to
    config.Hosts[0], which is no body of main.go, a run ends with the
    caller's host list changed. *)
Example store_changes_inputs :
  option_map (fun s => (pc s, Hosts (mem_config s)))
    (execute scribbling_goroutine (Sample.everywhere Sample.healthy) 100
       (Sample.config ["a"; "b"] "" "/key") Sample.commands) =
  Some (Returned, ["overwritten"; "b"]).
Proof. vm_compute. reflexivity. Qed.

(** C6.  Failure isolation.  Two runs in worlds that differ only in what
    host [a] meets (its key, dial, session, start and read outcomes) return,
    up to arrival order, Per-Host Results that are the same at every other
    position of the host list; even the calls made by the other goroutines
    are the same.  Both versions. *)
Theorem C6_failure_isolation (w1 w2 : World) (config : SSHConfig)
    (commands : list string) (a : nat) (res1 res2 : list CommandResult) :
  (forall b, b <> a -> w1 b = w2 b) ->
  (Inline.ExecuteRemoteCommands w1 config commands res1 ->
   Inline.ExecuteRemoteCommands w2 config commands res2 ->
   Permutation res1 (reports Inline.report w1 config commands) /\
   Permutation res2 (reports Inline.report w2 config commands) /\
   forall b, b <> a ->
     nth_error (reports Inline.report w1 config commands) b =
     nth_error (reports Inline.report w2 config commands) b /\
     forall host, script Inline.goroutine w1 config commands b host =
                  script Inline.goroutine w2 config commands b host) /\
  (Refactored.ExecuteRemoteCommands w1 config commands res1 ->
   Refactored.ExecuteRemoteCommands w2 config commands res2 ->
   Permutation res1 (reports Refactored.report w1 config commands) /\
   Permutation res2 (reports Refactored.report w2 config commands) /\
   forall b, b <> a ->
     nth_error (reports Refactored.report w1 config commands) b =
     nth_error (reports Refactored.report w2 config commands) b /\
     forall host, script Refactored.goroutine w1 config commands b host =
                  script Refactored.goroutine w2 config commands b host).
Proof.
  intros Hw. split; intros H1 H2.
  - split; [now apply Inline_returns_reports|]. split; [now apply Inline_returns_reports|].
    intros b Hb. split.
    + unfold reports. rewrite !nth_error_map.
      destruct (nth_error (indexed (Hosts config)) b) as [[k host]|] eqn:Hk; [|reflexivity].
      assert (k = b) as ->.
      { destruct (nth_error (Hosts config) b) as [x|] eqn:Hx.
        - rewrite (nth_error_indexed _ _ Hx) in Hk. now inversion Hk.
        - apply nth_error_None in Hx.
          assert (b < List.length (indexed (Hosts config))) by (apply nth_error_Some; congruence).
          unfold indexed, indexed_from in *. rewrite length_combine_seq in *. lia. }
      simpl. now rewrite (Hw b Hb).
    + intros host. unfold script. now rewrite (Hw b Hb).
  - split; [now apply Refactored_returns_reports|].
    split; [now apply Refactored_returns_reports|].
    intros b Hb. split.
    + unfold reports. rewrite !nth_error_map.
      destruct (nth_error (indexed (Hosts config)) b) as [[k host]|] eqn:Hk; [|reflexivity].
      assert (k = b) as ->.
      { destruct (nth_error (Hosts config) b) as [x|] eqn:Hx.
        - rewrite (nth_error_indexed _ _ Hx) in Hk. now inversion Hk.
        - apply nth_error_None in Hx.
          assert (b < List.length (indexed (Hosts config))) by (apply nth_error_Some; congruence).
          unfold indexed, indexed_from in *. rewrite length_combine_seq in *. lia. }
      simpl. now rewrite (Hw b Hb).
    + intros host. unfold script. now rewrite (Hw b Hb).
Qed.

Lemma C6_witness :
  (forall b, b <> 0 ->
     Sample.first_host Sample.unreachable b = Sample.first_host Sample.healthy b) /\
  Refactored.ExecuteRemoteCommands (Sample.first_host Sample.unreachable)
    (Sample.config ["a"; "b"] "secret" "") ["uptime"]
    [failed "a" "dial a: connection refused";
     {| Hostname := "b"; Output := labeled_output "uptime" "out"; Error := None |}] /\
  Refactored.ExecuteRemoteCommands (Sample.first_host Sample.healthy)
    (Sample.config ["a"; "b"] "secret" "") ["uptime"]
    [{| Hostname := "a"; Output := labeled_output "uptime" "out"; Error := None |};
     {| Hostname := "b"; Output := labeled_output "uptime" "out"; Error := None |}] /\
  nth_error (reports Refactored.report (Sample.first_host Sample.unreachable)
               (Sample.config ["a"; "b"] "secret" "") ["uptime"]) 1 =
  nth_error (reports Refactored.report (Sample.first_host Sample.healthy)
               (Sample.config ["a"; "b"] "secret" "") ["uptime"]) 1.
Proof.
  assert (Hw : forall b, b <> 0 ->
            Sample.first_host Sample.unreachable b = Sample.first_host Sample.healthy b).
  { intros [|b] Hb; [congruence | reflexivity]. }
  assert (H1 : Refactored.ExecuteRemoteCommands (Sample.first_host Sample.unreachable)
                 (Sample.config ["a"; "b"] "secret" "") ["uptime"]
                 [failed "a" "dial a: connection refused";
                  {| Hostname := "b"; Output := labeled_output "uptime" "out";
                     Error := None |}]).
  { apply Refactored_execute_returns with (fuel := 100). vm_compute. split; reflexivity. }
  assert (H2 : Refactored.ExecuteRemoteCommands (Sample.first_host Sample.healthy)
                 (Sample.config ["a"; "b"] "secret" "") ["uptime"]
                 [{| Hostname := "a"; Output := labeled_output "uptime" "out";
                     Error := None |};
                  {| Hostname := "b"; Output := labeled_output "uptime" "out";
                     Error := None |}]).
  { apply Refactored_execute_returns with (fuel := 100). vm_compute. split; reflexivity. }
  split; [exact Hw|]. split; [exact H1|]. split; [exact H2|].
  exact (proj1 (proj2 (proj2 (proj2 (@C6_failure_isolation _ _ _ _ 0 _ _ Hw) H1 H2))
                  1 (@Nat.neq_succ_0 0))).
Defined.

(** ** Entries of the output blob *)

Lemma Forall2_map_indexed (P : string -> string -> Prop) (f : nat * string -> string)
    (n : nat) (commands : list string) :
  (forall ic, In ic (indexed_from n commands) -> P (snd ic) (f ic)) ->
  Forall2 P commands (map f (indexed_from n commands)).
Proof.
  revert n. induction commands as [|cmd rest IH]; intros n H; [constructor|].
  rewrite indexed_from_cons in *. simpl. constructor.
  - apply (H (n, cmd)). now left.
  - apply IH. intros ic Hic. apply H. now right.
Qed.

Lemma Refactored_entry_names r client ic : EntryOf (snd ic) (Refactored.entry r client ic).
Proof.
  unfold EntryOf, Refactored.entry.
  destruct (command_outcome r client (fst ic) (snd ic)); eauto.
Qed.

Lemma Inline_entry_names r client ic :
  Inline.abort r client ic = None -> EntryOf (snd ic) (Inline.entry r client ic).
Proof.
  unfold EntryOf, Inline.entry, Inline.abort.
  destruct (command_outcome r client (fst ic) (snd ic)); try discriminate; eauto.
Qed.

Lemma Refactored_report_connected r config commands host auth client :
  setup r config host = Connected auth client ->
  Refactored.report r config commands host =
  {| Hostname := host;
     Output := join (map (Refactored.entry r client) (indexed commands));
     Error := None |}.
Proof. unfold Refactored.report. now intros ->. Qed.

Lemma Inline_report_connected r config commands host auth client :
  setup r config host = Connected auth client ->
  Inline.report r config commands host =
  match first_some (Inline.abort r client) (indexed commands) with
  | Some e => failed host e
  | None =>
      {| Hostname := host;
         Output := join (map (Inline.entry r client) (indexed commands));
         Error := None |}
  end.
Proof. unfold Inline.report. now intros ->. Qed.

(** C5.  On a host whose connection succeeds, the output blob is the
    concatenation of one entry per command, each naming its command (a
    labeled output or a failure note), in the order of the command list.  In
    the refactored version this is every connected host; in the inline
    version it is every connected host without terminal error, the blob of
    the others being empty. *)
Theorem C5_output_order (w : World) (config : SSHConfig) (commands : list string)
    (i : nat) (host : string) (auth : AuthMethod) (client : Client) :
  nth_error (Hosts config) i = Some host ->
  setup (w i) config host = Connected auth client ->
  (exists r2,
     sends (script Refactored.goroutine w config commands i host) = [r2] /\
     Output r2 = join (map (Refactored.entry (w i) client) (indexed commands)) /\
     Forall2 EntryOf commands (map (Refactored.entry (w i) client) (indexed commands))) /\
  (exists r1,
     sends (script Inline.goroutine w config commands i host) = [r1] /\
     ((Error r1 = None /\
       Output r1 = join (map (Inline.entry (w i) client) (indexed commands)) /\
       Forall2 EntryOf commands (map (Inline.entry (w i) client) (indexed commands))) \/
      (Error r1 <> None /\ Output r1 = ""))).
Proof.
  intros Hi Hsetup. split.
  - exists (Refactored.report (w i) config commands host).
    split; [apply Refactored_sends|].
    rewrite (@Refactored_report_connected (w i) config commands host auth client Hsetup). split; [reflexivity|].
    apply Forall2_map_indexed. intros ic _. apply Refactored_entry_names.
  - exists (Inline.report (w i) config commands host).
    split; [apply Inline_sends|].
    rewrite (@Inline_report_connected (w i) config commands host auth client Hsetup).
    destruct (first_some (Inline.abort (w i) client) (indexed commands)) as [e|] eqn:Hab.
    + right. split; [discriminate | reflexivity].
    + left. split; [reflexivity|]. split; [reflexivity|].
      apply Forall2_map_indexed. intros ic Hic. apply Inline_entry_names.
      now apply (proj1 (first_some_none _ _) Hab).
Qed.

Lemma C5_witness :
  nth_error (Hosts (Sample.config ["a"] "" "/key")) 0 = Some "a" /\
  setup (Sample.first_host Sample.no_second_start 0) (Sample.config ["a"] "" "/key") "a" =
    Connected (PublicKeys "signer") 1 /\
  exists r2,
    sends (script Refactored.goroutine (Sample.first_host Sample.no_second_start)
             (Sample.config ["a"] "" "/key") Sample.commands 0 "a") = [r2] /\
    Output r2 =
      join (map (Refactored.entry (Sample.first_host Sample.no_second_start 0) 1)
              (indexed Sample.commands)) /\
    Forall2 EntryOf Sample.commands
      (map (Refactored.entry (Sample.first_host Sample.no_second_start 0) 1)
         (indexed Sample.commands)).
Proof.
  split; [reflexivity|]. split; [reflexivity|].
  exact (proj1 (@C5_output_order (Sample.first_host Sample.no_second_start)
                  (Sample.config ["a"] "" "/key") Sample.commands 0 "a"
                  (PublicKeys "signer") 1 eq_refl eq_refl)).
Defined.

(** The blob of that host, entry by entry. *)
Example C5_sample_blob :
  map (Refactored.entry (Sample.first_host Sample.no_second_start 0) 1)
    (indexed Sample.commands) =
  [labeled_output "uname -a" "out";
   failed_note "df -h" "start command: exec failed";
   labeled_output "uptime" "out"].
Proof. reflexivity. Qed.

(** ** Credentials *)

Lemma nonempty_eqb (s : string) : s <> "" -> negb (s =? "")%string = true.
Proof. intros H. apply negb_true_iff. now apply String.eqb_neq. Qed.

Lemma dialed_with_key r config host :
  KeyPath config <> "" ->
  dialed_with r config host =
  match os_ReadFile r (KeyPath config) with
  | Err _ => []
  | Ok pem =>
      match ssh_ParsePrivateKey r pem with
      | Err _ => []
      | Ok signer => [clientConfig config (PublicKeys signer)]
      end
  end.
Proof.
  intros H. unfold dialed_with, setup, dial_outcome. rewrite (nonempty_eqb H).
  destruct (os_ReadFile r (KeyPath config)) as [pem|e]; [|reflexivity].
  destruct (ssh_ParsePrivateKey r pem) as [signer|e]; [|reflexivity].
  destruct (ssh_Dial _ _ _ _); reflexivity.
Qed.

Lemma dialed_with_password r config host :
  KeyPath config = "" -> Password config <> "" ->
  setup r config host = dial_outcome r config host (PasswordAuth (Password config)) /\
  dialed_with r config host = [clientConfig config (PasswordAuth (Password config))].
Proof.
  intros Hk Hp. unfold dialed_with, setup, dial_outcome.
  rewrite Hk, (nonempty_eqb Hp). simpl. split; [reflexivity|].
  destruct (ssh_Dial _ _ _ _); reflexivity.
Qed.

Lemma setup_no_credential r config host :
  KeyPath config = "" -> Password config = "" -> setup r config host = NoCredential.
Proof. intros Hk Hp. unfold setup. now rewrite Hk, Hp. Qed.

(** C7.  Credential selection, in both versions.  With a key path
    configured, whether or not a password is configured too, the goroutine
    dials only with the public-key method made from that key, never with the
    password.  With a password and no key path it dials with the password.
    With neither it dials nothing and sends a result whose terminal error
    says so; the run still returns one result per host, that one included. *)
Theorem C7_credential_selection (w : World) (config : SSHConfig) (commands : list string)
    (i : nat) (host : string) :
  nth_error (Hosts config) i = Some host ->
  (KeyPath config <> "" ->
     (forall cc,
        In cc (dials (script Inline.goroutine w config commands i host)) \/
        In cc (dials (script Refactored.goroutine w config commands i host)) ->
        exists signer, ccAuth cc = [PublicKeys signer]) /\
     (forall pem signer,
        os_ReadFile (w i) (KeyPath config) = Ok pem ->
        ssh_ParsePrivateKey (w i) pem = Ok signer ->
        dials (script Inline.goroutine w config commands i host) =
          [clientConfig config (PublicKeys signer)] /\
        dials (script Refactored.goroutine w config commands i host) =
          [clientConfig config (PublicKeys signer)])) /\
  (KeyPath config = "" -> Password config <> "" ->
     dials (script Inline.goroutine w config commands i host) =
       [clientConfig config (PasswordAuth (Password config))] /\
     dials (script Refactored.goroutine w config commands i host) =
       [clientConfig config (PasswordAuth (Password config))]) /\
  (KeyPath config = "" -> Password config = "" ->
     dials (script Inline.goroutine w config commands i host) = [] /\
     dials (script Refactored.goroutine w config commands i host) = [] /\
     sends (script Inline.goroutine w config commands i host) =
       [failed host "no auth method"] /\
     sends (script Refactored.goroutine w config commands i host) =
       [failed host ("dial " +:+ host +:+ ": no auth method")] /\
     (forall res, Inline.ExecuteRemoteCommands w config commands res ->
        List.length res = List.length (Hosts config) /\
        In (failed host "no auth method") res) /\
     (forall res, Refactored.ExecuteRemoteCommands w config commands res ->
        List.length res = List.length (Hosts config) /\
        In (failed host ("dial " +:+ host +:+ ": no auth method")) res)).
Proof.
  intros Hi.
  destruct (Inline_goroutine_spec (w i) config commands host) as (Hs1 & Hd1 & _).
  destruct (Refactored_goroutine_spec (w i) config commands host) as (Hs2 & Hd2 & _).
  fold (script Inline.goroutine w config commands i host) in Hs1, Hd1.
  fold (script Refactored.goroutine w config commands i host) in Hs2, Hd2.
  rewrite Hd1, Hd2, Hs1, Hs2. split; [|split].
  - intros Hk. rewrite (@dialed_with_key (w i) config host Hk). split.
    + intros cc Hcc.
      destruct (os_ReadFile (w i) (KeyPath config)) as [pem|e]; [|destruct Hcc as [[]|[]]].
      destruct (ssh_ParsePrivateKey (w i) pem) as [signer|e]; [|destruct Hcc as [[]|[]]].
      exists signer. destruct Hcc as [[<-|[]]|[<-|[]]]; reflexivity.
    + intros pem signer -> ->. split; reflexivity.
  - intros Hk Hp. destruct (@dialed_with_password (w i) config host Hk Hp) as [_ ->].
    split; reflexivity.
  - intros Hk Hp. pose proof (@setup_no_credential (w i) config host Hk Hp) as Hno.
    unfold dialed_with, Inline.report, Refactored.report. rewrite Hno.
    repeat split.
    + apply (Inline_returns_shape H).
    + destruct (Inline_returns_shape H) as (_ & _ & Hin).
      specialize (Hin i host Hi). unfold Inline.report in Hin. now rewrite Hno in Hin.
    + apply (Refactored_returns_shape H).
    + destruct (Refactored_returns_shape H) as (_ & _ & Hin).
      specialize (Hin i host Hi). unfold Refactored.report in Hin. now rewrite Hno in Hin.
Qed.

Lemma C7_witness :
  (nth_error (Hosts (Sample.config ["a"] "secret" "/key")) 0 = Some "a" /\
   KeyPath (Sample.config ["a"] "secret" "/key") <> "" /\
   os_ReadFile (Sample.everywhere Sample.healthy 0) "/key" = Ok "PEM" /\
   ssh_ParsePrivateKey (Sample.everywhere Sample.healthy 0) "PEM" = Ok "signer" /\
   dials (script Inline.goroutine (Sample.everywhere Sample.healthy)
            (Sample.config ["a"] "secret" "/key") Sample.commands 0 "a") =
     [clientConfig (Sample.config ["a"] "secret" "/key") (PublicKeys "signer")] /\
   dials (script Refactored.goroutine (Sample.everywhere Sample.healthy)
            (Sample.config ["a"] "secret" "/key") Sample.commands 0 "a") =
     [clientConfig (Sample.config ["a"] "secret" "/key") (PublicKeys "signer")]) /\
  (Password (Sample.config ["a"] "secret" "") <> "" /\
   dials (script Inline.goroutine (Sample.everywhere Sample.healthy)
            (Sample.config ["a"] "secret" "") Sample.commands 0 "a") =
     [clientConfig (Sample.config ["a"] "secret" "") (PasswordAuth "secret")]) /\
  sends (script Inline.goroutine (Sample.everywhere Sample.healthy)
           (Sample.config ["a"] "" "") Sample.commands 0 "a") =
    [failed "a" "no auth method"].
Proof.
  assert (Hk : KeyPath (Sample.config ["a"] "secret" "/key") <> "") by discriminate.
  assert (Hp : Password (Sample.config ["a"] "secret" "") <> "") by discriminate.
  split; [|split].
  - split; [reflexivity|]. split; [exact Hk|]. split; [reflexivity|]. split; [reflexivity|].
    exact (proj2 (proj1 (@C7_credential_selection (Sample.everywhere Sample.healthy)
                           (Sample.config ["a"] "secret" "/key") Sample.commands 0 "a"
                           eq_refl) Hk)
             "PEM" "signer" eq_refl eq_refl).
  - split; [exact Hp|].
    exact (proj1 (proj1 (proj2 (@C7_credential_selection (Sample.everywhere Sample.healthy)
                                  (Sample.config ["a"] "secret" "") Sample.commands 0 "a"
                                  eq_refl))
                    eq_refl Hp)).
  - exact (proj1 (proj2 (proj2 (proj2 (proj2
             (@C7_credential_selection (Sample.everywhere Sample.healthy)
                (Sample.config ["a"] "" "") Sample.commands 0 "a" eq_refl))
             eq_refl eq_refl)))).
Defined.

(** ** Command-level failures *)

Lemma nth_error_entries (f : nat * string -> string) commands k cmd :
  nth_error commands k = Some cmd ->
  nth_error (map f (indexed commands)) k = Some (f (k, cmd)).
Proof. intros H. now rewrite nth_error_map, (nth_error_indexed _ _ H). Qed.


(** Every result a run of the sample [config ["a"] "" "/key"] returns. *)
Lemma Inline_single_host w host password keyPath commands res :
  Inline.ExecuteRemoteCommands w (Sample.config [host] password keyPath) commands res ->
  res = [Inline.report (w 0) (Sample.config [host] password keyPath) commands host].
Proof. intros H. apply Inline_returns_reports in H. now apply Permutation_singleton_eq. Qed.

Lemma Refactored_single_host w host password keyPath commands res :
  Refactored.ExecuteRemoteCommands w (Sample.config [host] password keyPath) commands res ->
  res = [Refactored.report (w 0) (Sample.config [host] password keyPath) commands host].
Proof. intros H. apply Refactored_returns_reports in H. now apply Permutation_singleton_eq. Qed.




(** C4, as claimed, fails on both versions: a command that starts and exits
    with status 1 is recorded as a normal labeled output, and no failure note
    is written for it. *)
Lemma C4_counterexample :
  command_outcome (Sample.everywhere Sample.exits_abnormally 0) 1 0 "false" =
    Completes "out" None (Some "Process exited with status 1") /\
  (exists res,
     Inline.ExecuteRemoteCommands (Sample.everywhere Sample.exits_abnormally)
       (Sample.config ["a"] "" "/key") ["false"] res) /\
  (exists res,
     Refactored.ExecuteRemoteCommands (Sample.everywhere Sample.exits_abnormally)
       (Sample.config ["a"] "" "/key") ["false"] res) /\
  (forall res,
     Inline.ExecuteRemoteCommands (Sample.everywhere Sample.exits_abnormally)
       (Sample.config ["a"] "" "/key") ["false"] res \/
     Refactored.ExecuteRemoteCommands (Sample.everywhere Sample.exits_abnormally)
       (Sample.config ["a"] "" "/key") ["false"] res ->
     res = [{| Hostname := "a"; Output := labeled_output "false" "out"; Error := None |}]) /\
  (forall e, labeled_output "false" "out" <> failed_note "false" e).
Proof.
  split; [reflexivity|]. split; [apply Inline_returns_some|].
  split; [apply Refactored_returns_some|]. split.
  - intros res [H|H];
      [apply Inline_single_host in H | apply Refactored_single_host in H]; exact H.
  - intros e H. unfold labeled_output, failed_note in H. simpl in H. discriminate H.
Qed.

(** C4, amended.  On a connected host, a command that starts leaves at its
    place in the blob its captured standard output, labeled with the command,
    whatever session.Wait and io.ReadAll report: the exit status and the read
    error are ignored and no failure note is written for it.  (In the inline
    version the blob exists when no session and no stdout pipe fails.) *)
Theorem C4_exit_status_ignored (w : World) (config : SSHConfig)
    (commands : list string) (i : nat) (host : string) (auth : AuthMethod)
    (client : Client) (k : nat) (cmd out : string) (readErr waitErr : error) :
  nth_error (Hosts config) i = Some host ->
  setup (w i) config host = Connected auth client ->
  nth_error commands k = Some cmd ->
  command_outcome (w i) client k cmd = Completes out readErr waitErr ->
  (exists r2,
     sends (script Refactored.goroutine w config commands i host) = [r2] /\
     Error r2 = None /\
     Output r2 = join (map (Refactored.entry (w i) client) (indexed commands)) /\
     nth_error (map (Refactored.entry (w i) client) (indexed commands)) k =
       Some (labeled_output cmd out)) /\
  (exists r1,
     sends (script Inline.goroutine w config commands i host) = [r1] /\
     (first_some (Inline.abort (w i) client) (indexed commands) = None ->
      Error r1 = None /\
      Output r1 = join (map (Inline.entry (w i) client) (indexed commands)) /\
      nth_error (map (Inline.entry (w i) client) (indexed commands)) k =
        Some (labeled_output cmd out))).
Proof.
  intros Hi Hsetup Hk Ho. split.
  - exists (Refactored.report (w i) config commands host).
    split; [apply Refactored_sends|].
    rewrite (@Refactored_report_connected (w i) config commands host auth client Hsetup).
    split; [reflexivity|]. split; [reflexivity|].
    rewrite (@nth_error_entries (Refactored.entry (w i) client) commands k cmd Hk).
    unfold Refactored.entry. cbn [fst snd]. now rewrite Ho.
  - exists (Inline.report (w i) config commands host).
    split; [apply Inline_sends|].
    rewrite (@Inline_report_connected (w i) config commands host auth client Hsetup).
    intros ->. split; [reflexivity|]. split; [reflexivity|].
    rewrite (@nth_error_entries (Inline.entry (w i) client) commands k cmd Hk).
    unfold Inline.entry. cbn [fst snd]. now rewrite Ho.
Qed.

Lemma C4_witness :
  nth_error (Hosts (Sample.config ["a"] "" "/key")) 0 = Some "a" /\
  setup (Sample.everywhere Sample.exits_abnormally 0) (Sample.config ["a"] "" "/key") "a" =
    Connected (PublicKeys "signer") 1 /\
  nth_error Sample.commands 1 = Some "df -h" /\
  command_outcome (Sample.everywhere Sample.exits_abnormally 0) 1 1 "df -h" =
    Completes "out" None (Some "Process exited with status 1") /\
  exists r2,
    sends (script Refactored.goroutine (Sample.everywhere Sample.exits_abnormally)
             (Sample.config ["a"] "" "/key") Sample.commands 0 "a") = [r2] /\
    Error r2 = None /\
    Output r2 =
      join (map (Refactored.entry (Sample.everywhere Sample.exits_abnormally 0) 1)
              (indexed Sample.commands)) /\
    nth_error (map (Refactored.entry (Sample.everywhere Sample.exits_abnormally 0) 1)
                 (indexed Sample.commands)) 1 =
      Some (labeled_output "df -h" "out").
Proof.
  split; [reflexivity|]. split; [reflexivity|]. split; [reflexivity|].
  split; [reflexivity|].
  exact (proj1 (@C4_exit_status_ignored (Sample.everywhere Sample.exits_abnormally)
                  (Sample.config ["a"] "" "/key") Sample.commands 0 "a"
                  (PublicKeys "signer") 1 1 "df -h" "out" None
                  (Some "Process exited with status 1")
                  eq_refl eq_refl eq_refl eq_refl)).
Defined.

(** ** The two versions side by side *)





(** * Further properties of the code *)

(** ** Goroutines, WaitGroup and channel (lines 39-46 and 126-139; 284-291 and 315-328) *)

Section SchedulerExtras.
Variable body : Remote -> SSHConfig -> list string -> string -> Task unit.
Variable w : World.
Hypothesis one_send : forall r config commands host,
  List.length (sends (trace (snd (body r config commands host start)))) = 1.

Lemma pending_send_counts (gs : list (list Event)) k res todo :
  nth_error gs k = Some (EvSend res :: todo) -> 1 <= List.length (flat_map sends gs).
Proof.
  intros H. rewrite (split_nth_error _ _ H), flat_map_app, length_app.
  cbn [flat_map sends]. rewrite length_app. cbn [List.length]. lia.
Qed.

Lemma inv_buffer_room config commands s :
  Inv body w config commands s ->
  List.length (commandResults s) + List.length (results s) +
  List.length (flat_map sends (goroutines s)) <= results_cap s.
Proof.
  intros [Hcfg Hcmd Hcap Hwg Hph Hquiet Hres].
  apply Permutation_length in Hres.
  rewrite (sent_length body w one_send) in Hres. rewrite !length_app in Hres. lia.
Qed.

Lemma inv_host_ready config commands s k g :
  Inv body w config commands s -> nth_error (goroutines s) k = Some g ->
  exists s', step body w (RunHost k) s = Next s'.
Proof.
  intros HI Hk. pose proof (inv_buffer_room HI) as Hroom.
  destruct HI as [Hcfg Hcmd Hcap Hwg Hph Hquiet Hres].
  assert (Hne : goroutines s <> []).
  { intros E. rewrite E in Hk. destruct k; discriminate. }
  pose proof (quiet_nth _ Hquiet Hk) as Hns.
  unfold step. rewrite Hk. destruct g as [|e todo].
  - destruct (wg s) as [|n] eqn:Hw; [|eauto].
    exfalso. apply Hne. apply length_zero_iff_nil. congruence.
  - destruct e; eauto; try solve [cbn [stores] in Hns; discriminate Hns].
    assert (Hcl : results_closed s = false).
    { unfold phase_ok in Hph.
      destruct (pc s), (closer s); try contradiction; try assumption;
        exfalso; apply Hne; tauto. }
    rewrite Hcl. pose proof (pending_send_counts _ _ Hk) as Hp.
    assert (Hlt : (List.length (results s) <? results_cap s)%nat = true)
      by (apply Nat.ltb_lt; lia).
    rewrite Hlt. eauto.
Qed.

Lemma inv_closed_idle config commands s :
  Inv body w config commands s ->
  (results_closed s = true -> goroutines s = [] /\ wg s = 0 /\ closer s = Closed) /\
  (pc s = Returned ->
   results_closed s = true /\ results s = [] /\ goroutines s = [] /\ wg s = 0 /\
   List.length (commandResults s) = List.length (Hosts config)).
Proof.
  intros HI. pose proof HI as [Hcfg Hcmd Hcap Hwg Hph Hquiet Hres]. unfold phase_ok in Hph. split.
  - intros Hcl. rewrite Hwg.
    destruct (pc s), (closer s); try contradiction; try congruence.
    + destruct Hph as [_ Hg]. rewrite Hg. auto.
    + destruct Hph as (_ & Hg & _). rewrite Hg. auto.
  - intros Hpc. rewrite Hwg. unfold unspawned in Hres. rewrite Hpc in *.
    destruct (closer s); try contradiction. destruct Hph as (Hcl & Hg & Hq).
    rewrite Hg, Hq in *. repeat split; auto.
    apply Permutation_length in Hres. rewrite (sent_length body w one_send) in Hres.
    rewrite !length_app in Hres. cbn [flat_map List.length] in Hres. lia.
Qed.

End SchedulerExtras.

Lemma Inline_one_send r config commands host :
  List.length (sends (trace (snd (Inline.goroutine r config commands host start)))) = 1.
Proof. now rewrite Inline_sends. Qed.

Lemma Refactored_one_send r config commands host :
  List.length (sends (trace (snd (Refactored.goroutine r config commands host start)))) = 1.
Proof. now rewrite Refactored_sends. Qed.

Lemma midway_reachable body w fuel config commands :
  match midway body w fuel config commands with
  | Some s => reachable body w config commands s
  | None => True
  end.
Proof. apply execute_reachable. Qed.

(** X1.  No run of either version panics: in every reachable state, whoever
    is scheduled, no goroutine sends on the closed channel and the WaitGroup
    counter never becomes negative. *)
Theorem X1_never_panics (w : World) (config : SSHConfig) (commands : list string)
    (s : State) (c : Choice) :
  (reachable Inline.goroutine w config commands s ->
   step Inline.goroutine w c s <> Panic) /\
  (reachable Refactored.goroutine w config commands s ->
   step Refactored.goroutine w c s <> Panic).
Proof.
  split; intros H;
    [apply (reachable_inv Inline_quiet) in H | apply (reachable_inv Refactored_quiet) in H];
    eapply inv_no_panic; eauto.
Qed.

Lemma X1_witness :
  match midway Refactored.goroutine (Sample.first_host Sample.unreachable) 6
          (Sample.config ["a"; "b"] "secret" "") Sample.commands with
  | Some s =>
      reachable Refactored.goroutine (Sample.first_host Sample.unreachable)
        (Sample.config ["a"; "b"] "secret" "") Sample.commands s /\
      step Refactored.goroutine (Sample.first_host Sample.unreachable) (RunHost 0) s <> Panic
  | None => False
  end.
Proof.
  generalize (midway_reachable Refactored.goroutine (Sample.first_host Sample.unreachable) 6
                (Sample.config ["a"; "b"] "secret" "") Sample.commands).
  destruct (midway Refactored.goroutine (Sample.first_host Sample.unreachable) 6
              (Sample.config ["a"; "b"] "secret" "") Sample.commands) as [s|] eqn:Hs.
  - intros Hr. split; [exact Hr|].
    exact (proj2 (@X1_never_panics _ _ _ s (RunHost 0)) Hr).
  - revert Hs. vm_compute. discriminate.
Defined.

(** X2.  A live host goroutine is never blocked: in every reachable state
    each of them can take its next step at once, a send included, because
    the channel has room for one result per host.  So no host waits for
    another host or for the collecting loop. *)
Theorem X2_hosts_never_blocked (w : World) (config : SSHConfig) (commands : list string)
    (s : State) (k : nat) (g : list Event) :
  nth_error (goroutines s) k = Some g ->
  (reachable Inline.goroutine w config commands s ->
   exists s', step Inline.goroutine w (RunHost k) s = Next s') /\
  (reachable Refactored.goroutine w config commands s ->
   exists s', step Refactored.goroutine w (RunHost k) s = Next s').
Proof.
  intros Hk. split; intros H;
    [apply (reachable_inv Inline_quiet) in H | apply (reachable_inv Refactored_quiet) in H].
  - eapply inv_host_ready; eauto using Inline_one_send.
  - eapply inv_host_ready; eauto using Refactored_one_send.
Qed.

Lemma X2_witness :
  match midway Refactored.goroutine (Sample.first_host Sample.unreachable) 6
          (Sample.config ["a"; "b"] "secret" "") Sample.commands with
  | Some s =>
      exists g,
        nth_error (goroutines s) 0 = Some g /\
        reachable Refactored.goroutine (Sample.first_host Sample.unreachable)
          (Sample.config ["a"; "b"] "secret" "") Sample.commands s /\
        exists s',
          step Refactored.goroutine (Sample.first_host Sample.unreachable) (RunHost 0) s =
          Next s'
  | None => False
  end.
Proof.
  generalize (midway_reachable Refactored.goroutine (Sample.first_host Sample.unreachable) 6
                (Sample.config ["a"; "b"] "secret" "") Sample.commands).
  destruct (midway Refactored.goroutine (Sample.first_host Sample.unreachable) 6
              (Sample.config ["a"; "b"] "secret" "") Sample.commands) as [s|] eqn:Hs.
  - intros Hr.
    assert (Hg : exists g, nth_error (goroutines s) 0 = Some g).
    { revert Hs. vm_compute. intros Hs. inversion Hs. eexists. reflexivity. }
    destruct Hg as [g Hg]. exists g. split; [exact Hg|]. split; [exact Hr|].
    exact (proj2 (@X2_hosts_never_blocked _ _ _ s 0 g Hg) Hr).
  - revert Hs. vm_compute. discriminate.
Defined.

(** X3.  No deadlock: in every reachable state in which the function has not
    returned, the function itself, the closing goroutine or a host goroutine
    can move. *)
Theorem X3_deadlock_free (w : World) (config : SSHConfig) (commands : list string)
    (s : State) :
  pc s <> Returned ->
  (reachable Inline.goroutine w config commands s ->
   exists c s', step Inline.goroutine w c s = Next s') /\
  (reachable Refactored.goroutine w config commands s ->
   exists c s', step Refactored.goroutine w c s = Next s').
Proof.
  intros Hpc. split; intros H;
    [apply (reachable_inv Inline_quiet) in H | apply (reachable_inv Refactored_quiet) in H].
  - eapply inv_progress; eauto using Inline_one_send.
  - eapply inv_progress; eauto using Refactored_one_send.
Qed.

Lemma X3_witness :
  match midway Inline.goroutine (Sample.first_host Sample.no_second_session) 9
          (Sample.config ["a"; "b"] "" "/key") Sample.commands with
  | Some s =>
      pc s <> Returned /\
      reachable Inline.goroutine (Sample.first_host Sample.no_second_session)
        (Sample.config ["a"; "b"] "" "/key") Sample.commands s /\
      exists c s',
        step Inline.goroutine (Sample.first_host Sample.no_second_session) c s = Next s'
  | None => False
  end.
Proof.
  generalize (midway_reachable Inline.goroutine (Sample.first_host Sample.no_second_session) 9
                (Sample.config ["a"; "b"] "" "/key") Sample.commands).
  destruct (midway Inline.goroutine (Sample.first_host Sample.no_second_session) 9
              (Sample.config ["a"; "b"] "" "/key") Sample.commands) as [s|] eqn:Hs.
  - intros Hr.
    assert (Hpc : pc s <> Returned).
    { revert Hs. vm_compute. intros Hs. inversion Hs. discriminate. }
    split; [exact Hpc|]. split; [exact Hr|].
    exact (proj1 (@X3_deadlock_free _ _ _ s Hpc) Hr).
  - revert Hs. vm_compute. discriminate.
Defined.

(** X5.  The channel is closed only when no host goroutine is left and the
    WaitGroup counter is zero; and the function returns only when the
    channel is closed and drained, no goroutine is left, and it has
    collected as many results as there are hosts: no partial result set is
    returned. *)
Theorem X5_close_and_return_barrier (w : World) (config : SSHConfig)
    (commands : list string) (s : State) :
  reachable Inline.goroutine w config commands s \/
  reachable Refactored.goroutine w config commands s ->
  (results_closed s = true -> goroutines s = [] /\ wg s = 0 /\ closer s = Closed) /\
  (pc s = Returned ->
   results_closed s = true /\ results s = [] /\ goroutines s = [] /\ wg s = 0 /\
   List.length (commandResults s) = List.length (Hosts config)).
Proof.
  intros [H|H];
    [apply (reachable_inv Inline_quiet) in H | apply (reachable_inv Refactored_quiet) in H].
  - eapply inv_closed_idle; eauto using Inline_one_send.
  - eapply inv_closed_idle; eauto using Refactored_one_send.
Qed.

Lemma X5_witness :
  match midway Inline.goroutine (Sample.first_host Sample.no_second_session) 100
          (Sample.config ["a"; "b"] "" "/key") Sample.commands with
  | Some s =>
      reachable Inline.goroutine (Sample.first_host Sample.no_second_session)
        (Sample.config ["a"; "b"] "" "/key") Sample.commands s /\
      pc s = Returned /\
      results_closed s = true /\ results s = [] /\ goroutines s = [] /\ wg s = 0 /\
      List.length (commandResults s) =
        List.length (Hosts (Sample.config ["a"; "b"] "" "/key"))
  | None => False
  end.
Proof.
  generalize (midway_reachable Inline.goroutine (Sample.first_host Sample.no_second_session)
                100 (Sample.config ["a"; "b"] "" "/key") Sample.commands).
  destruct (midway Inline.goroutine (Sample.first_host Sample.no_second_session) 100
              (Sample.config ["a"; "b"] "" "/key") Sample.commands) as [s|] eqn:Hs.
  - intros Hr.
    assert (Hpc : pc s = Returned).
    { revert Hs. vm_compute. intros Hs. inversion Hs. reflexivity. }
    split; [exact Hr|]. split; [exact Hpc|].
    exact (proj2 (@X5_close_and_return_barrier _ _ _ s (or_introl Hr)) Hpc).
  - revert Hs. vm_compute. discriminate.
Defined.

(** X6.  The channel never holds more values than its capacity, which is the
    number of hosts; collected and queued results together never exceed the
    number of hosts, so no host is ever reported twice. *)
Theorem X6_channel_within_capacity (w : World) (config : SSHConfig)
    (commands : list string) (s : State) :
  reachable Inline.goroutine w config commands s \/
  reachable Refactored.goroutine w config commands s ->
  results_cap s = List.length (Hosts config) /\
  List.length (results s) <= results_cap s /\
  List.length (commandResults s) + List.length (results s) <= List.length (Hosts config).
Proof.
  intros [H|H];
    [apply (reachable_inv Inline_quiet) in H | apply (reachable_inv Refactored_quiet) in H].
  - pose proof (inv_buffer_room Inline_one_send H) as Hroom.
    destruct H as [_ _ Hcap _ _ _ _]. rewrite <- Hcap. repeat split; lia.
  - pose proof (inv_buffer_room Refactored_one_send H) as Hroom.
    destruct H as [_ _ Hcap _ _ _ _]. rewrite <- Hcap. repeat split; lia.
Qed.

Lemma X6_witness :
  match midway Refactored.goroutine (Sample.everywhere Sample.unreachable) 12
          (Sample.config ["a"; "b"; "c"] "secret" "") Sample.commands with
  | Some s =>
      reachable Refactored.goroutine (Sample.everywhere Sample.unreachable)
        (Sample.config ["a"; "b"; "c"] "secret" "") Sample.commands s /\
      results_cap s = List.length (Hosts (Sample.config ["a"; "b"; "c"] "secret" "")) /\
      List.length (results s) <= results_cap s /\
      List.length (commandResults s) + List.length (results s) <=
        List.length (Hosts (Sample.config ["a"; "b"; "c"] "secret" ""))
  | None => False
  end.
Proof.
  generalize (midway_reachable Refactored.goroutine (Sample.everywhere Sample.unreachable) 12
                (Sample.config ["a"; "b"; "c"] "secret" "") Sample.commands).
  destruct (midway Refactored.goroutine (Sample.everywhere Sample.unreachable) 12
              (Sample.config ["a"; "b"; "c"] "secret" "") Sample.commands) as [s|] eqn:Hs.
  - intros Hr. split; [exact Hr|].
    exact (@X6_channel_within_capacity _ _ _ s (or_intror Hr)).
  - revert Hs. vm_compute. discriminate.
Defined.

(** ** How many steps a goroutine and a run can take *)

Lemma cost_length t : cost t = 1 + List.length t + List.length (sends t).
Proof.
  induction t as [|e t IH]; [reflexivity|].
  destruct e; cbn [cost sends List.length]; rewrite IH; lia.
Qed.

Lemma Refactored_executeCommand_length r client cmd l :
  List.length (trace (snd (Refactored.executeCommand r client cmd l))) <=
  List.length (trace l) + 6.
Proof.
  unfold Refactored.executeCommand. task_unfold.
  destruct (ssh_NewSession r client (sessions l)) as [session|e];
    [destruct (ssh_StdoutPipe r session) as [stdout|e];
     [destruct (ssh_Start r session cmd) as [e|]|]|];
    cbn [fst snd sessions trace]; rewrite !length_app; cbn [List.length]; lia.
Qed.

Lemma Refactored_commandLoop_length r client commands acc l :
  List.length (trace (snd (Refactored.commandLoop r client commands acc l))) <=
  List.length (trace l) + 6 * List.length commands.
Proof.
  revert acc l. induction commands as [|cmd rest IH]; intros acc l.
  - cbn. lia.
  - rewrite Refactored_commandLoop_cons.
    pose proof (Refactored_executeCommand_length r client cmd l) as H1.
    destruct (fst (Refactored.executeCommand r client cmd l));
      (eapply Nat.le_trans; [apply IH|]); cbn [List.length]; lia.
Qed.

Lemma Inline_commandLoop_length r client commands acc l :
  List.length (trace (snd (Inline.commandLoop r client commands acc l))) <=
  List.length (trace l) + 6 * List.length commands.
Proof.
  revert acc l. induction commands as [|cmd rest IH]; intros acc l.
  - cbn. lia.
  - cbn [Inline.commandLoop]. task_unfold.
    destruct (ssh_NewSession r client (sessions l)) as [session|e];
      [destruct (ssh_StdoutPipe r session) as [stdout|e];
       [destruct (ssh_Start r session cmd) as [e|]|]|];
      cbn [fst snd sessions trace];
      try (eapply Nat.le_trans; [apply IH|]); cbn [trace];
      rewrite !length_app; cbn [List.length]; lia.
Qed.

Lemma Refactored_setupSSHClient_length r host config :
  List.length (trace (snd (Refactored.setupSSHClient r host config start))) <= 3.
Proof.
  unfold Refactored.setupSSHClient, start. task_unfold.
  destruct (negb (KeyPath config =? "")%string).
  - cbn [fst snd sessions trace app].
    destruct (os_ReadFile r (KeyPath config)) as [pem|e]; cbn [fst snd sessions trace app];
      [|cbn; lia].
    destruct (ssh_ParsePrivateKey r pem) as [signer|e]; cbn [fst snd sessions trace app];
      cbn; lia.
  - destruct (negb (Password config =? "")%string); cbn; lia.
Qed.

Lemma Refactored_goroutine_length r config commands host :
  List.length (trace (snd (Refactored.goroutine r config commands host start))) <=
  5 + 6 * List.length commands.
Proof.
  unfold Refactored.goroutine. unfold bind at 1.
  pose proof (Refactored_setupSSHClient_length r host config) as H0.
  destruct (Refactored.setupSSHClient r host config start) as [[client|e] l0];
    cbn [fst snd] in *.
  - unfold bind at 1.
    pose proof (Refactored_commandLoop_length r client commands "" l0) as H1.
    destruct (Refactored.commandLoop r client commands "" l0) as [out l1].
    cbn [fst snd] in *. unfold send, ClientClose, bind, perform. cbn [fst snd sessions trace].
    rewrite !length_app. cbn [List.length]. lia.
  - unfold send, perform. cbn [fst snd sessions trace].
    rewrite length_app. cbn [List.length]. lia.
Qed.

Lemma Inline_goroutine_length r config commands host :
  List.length (trace (snd (Inline.goroutine r config commands host start))) <=
  5 + 6 * List.length commands.
Proof.
  assert (Hconn : forall client l0, List.length (trace l0) <= 3 ->
    List.length
      (trace (snd (let (a, l') := Inline.commandLoop r client commands "" l0 in
         let (_, l'0) :=
           match a with
           | inl combinedOutput =>
               fun l : Local =>
               (tt, {| sessions := sessions l;
                       trace := trace l ++
                         [EvSend (set_Output {| Hostname := host; Output := ""; Error := None |}
                                    combinedOutput)] |})
           | inr e =>
               fun l : Local =>
               (tt, {| sessions := sessions l;
                       trace := trace l ++
                         [EvSend (set_Error {| Hostname := host; Output := ""; Error := None |}
                                    e)] |})
           end l' in
         (tt, {| sessions := sessions l'0; trace := trace l'0 ++ [EvClientClose client] |}))))
    <= 5 + 6 * List.length commands).
  { intros client l0 H0.
    pose proof (Inline_commandLoop_length r client commands "" l0) as H1.
    destruct (Inline.commandLoop r client commands "" l0) as [[out|e] l1];
      cbn [fst snd sessions trace] in *; rewrite !length_app; cbn [List.length]; lia. }
  unfold Inline.goroutine, Inline.chooseAuth, start. task_unfold.
  destruct (negb (KeyPath config =? "")%string).
  - destruct (os_ReadFile r (KeyPath config)) as [pem|e]; [|cbn; lia].
    destruct (ssh_ParsePrivateKey r pem) as [signer|e]; [|cbn; lia].
    destruct (ssh_Dial r "tcp" (address host config) (clientConfig config (PublicKeys signer)))
      as [client|e]; [|cbn; lia].
    apply Hconn. cbn. lia.
  - destruct (negb (Password config =? "")%string); [|cbn; lia].
    destruct (ssh_Dial r "tcp" (address host config)
                (clientConfig config (PasswordAuth (Password config)))) as [client|e];
      [|cbn; lia].
    apply Hconn. cbn. lia.
Qed.

Section RunLength.
Variable body : Remote -> SSHConfig -> list string -> string -> Task unit.
Variable w : World.
Hypothesis one_send : forall r config commands host,
  List.length (sends (trace (snd (body r config commands host start)))) = 1.
Hypothesis body_quiet : forall r config commands host,
  stores (trace (snd (body r config commands host start))) = [].
Hypothesis body_length : forall r config commands host,
  List.length (trace (snd (body r config commands host start))) <=
  5 + 6 * List.length commands.

Lemma total_bound (K : nat) (l : list (list Event)) :
  (forall t, In t l -> cost t <= K) -> total l <= List.length l * K.
Proof.
  induction l as [|t l IH]; intros H; [cbn; lia|].
  rewrite total_cons. cbn [List.length].
  assert (cost t <= K) by (apply H; now left).
  assert (total l <= List.length l * K) by (apply IH; intros; apply H; now right).
  lia.
Qed.

Lemma measure_init_bound config commands :
  measure body w (init config commands) <=
  5 + List.length (Hosts config) * (8 + 6 * List.length commands).
Proof.
  unfold measure, unspawned, init.
  cbn [pc closer goroutines results mem_config mem_commands skipn List.length].
  change (total []) with 0.
  assert (Ht : total (scripts body w config commands) <=
               List.length (scripts body w config commands) *
               (7 + 6 * List.length commands)).
  { apply total_bound. intros t Hin. unfold scripts in Hin.
    apply in_map_iff in Hin as ([i host] & <- & _). unfold script. cbn [fst snd].
    rewrite cost_length, one_send.
    pose proof (body_length (w i) config commands host). lia. }
  rewrite scripts_length in *. lia.
Qed.

Lemma run_length_bound config commands cs s :
  run body w cs (init config commands) = Some s ->
  List.length cs <= 5 + List.length (Hosts config) * (8 + 6 * List.length commands).
Proof.
  intros H. apply (@run_bounded body w body_quiet config commands) in H;
    [|apply inv_init].
  pose proof (measure_init_bound config commands). lia.
Qed.

End RunLength.

(** X4.  No unbounded work.  Counting each call on the remote capability as
    one step (in the real system such a call can take arbitrarily long, or
    never return), a run of either version from the call takes at most
    5 + N * (8 + 6 * M) steps under any scheduler, for N hosts and M
    commands: the code has no retry and no loop other than the ones over the
    hosts and over the commands. *)
Theorem X4_runs_are_bounded (w : World) (config : SSHConfig) (commands : list string)
    (cs : list Choice) (s : State) :
  run Inline.goroutine w cs (init config commands) = Some s \/
  run Refactored.goroutine w cs (init config commands) = Some s ->
  List.length cs <= 5 + List.length (Hosts config) * (8 + 6 * List.length commands).
Proof.
  intros [H|H].
  - eapply run_length_bound;
      eauto using Inline_one_send, Inline_goroutine_length, Inline_quiet.
  - eapply run_length_bound;
      eauto using Refactored_one_send, Refactored_goroutine_length, Refactored_quiet.
Qed.

Lemma X4_witness :
  match run Refactored.goroutine (Sample.first_host Sample.unreachable)
          (schedule Refactored.goroutine (Sample.first_host Sample.unreachable) 100
             (init (Sample.config ["a"; "b"] "secret" "") Sample.commands))
          (init (Sample.config ["a"; "b"] "secret" "") Sample.commands) with
  | Some s =>
      List.length
        (schedule Refactored.goroutine (Sample.first_host Sample.unreachable) 100
           (init (Sample.config ["a"; "b"] "secret" "") Sample.commands)) <=
      5 + List.length (Hosts (Sample.config ["a"; "b"] "secret" "")) *
          (8 + 6 * List.length Sample.commands)
  | None => False
  end.
Proof.
  destruct (run Refactored.goroutine (Sample.first_host Sample.unreachable)
              (schedule Refactored.goroutine (Sample.first_host Sample.unreachable) 100
                 (init (Sample.config ["a"; "b"] "secret" "") Sample.commands))
              (init (Sample.config ["a"; "b"] "secret" "") Sample.commands))
    as [s|] eqn:Hs.
  - exact (@X4_runs_are_bounded _ _ _ _ s (or_intror Hs)).
  - revert Hs. vm_compute. discriminate.
Defined.

(** ** What the call sequence shows *)

Lemma starts_app t1 t2 : starts (t1 ++ t2) = starts t1 ++ starts t2.
Proof.
  induction t1 as [|e t1 IH]; simpl; [reflexivity|].
  destruct e; simpl; rewrite ?IH; reflexivity.
Qed.

Lemma closes_app t1 t2 : closes (t1 ++ t2) = closes t1 ++ closes t2.
Proof.
  induction t1 as [|e t1 IH]; simpl; [reflexivity|].
  destruct e; simpl; rewrite ?IH; reflexivity.
Qed.

Lemma dial_targets_app t1 t2 : dial_targets (t1 ++ t2) = dial_targets t1 ++ dial_targets t2.
Proof.
  induction t1 as [|e t1 IH]; simpl; [reflexivity|].
  destruct e; simpl; rewrite ?IH; reflexivity.
Qed.

Lemma new_sessions_app t1 t2 : new_sessions (t1 ++ t2) = new_sessions t1 + new_sessions t2.
Proof. unfold new_sessions. now rewrite filter_app, length_app. Qed.

Lemma setup_events_quiet r config host :
  starts (setup_events r config host) = [] /\
  closes (setup_events r config host) = [] /\
  sends (setup_events r config host) = [] /\
  new_sessions (setup_events r config host) = 0 /\
  forall n, fold_left (track r) (setup_events r config host) (Some (n, None)) =
            Some (n, None).
Proof.
  unfold setup_events.
  destruct (negb (KeyPath config =? "")%string).
  - destruct (os_ReadFile r (KeyPath config)) as [pem|e]; [|repeat split].
    destruct (ssh_ParsePrivateKey r pem) as [signer|e]; repeat split.
  - destruct (negb (Password config =? "")%string); repeat split.
Qed.

Lemma setup_events_dial r config host :
  dial_targets (setup_events r config host) =
  match setup r config host with
  | DialFails _ _ | Connected _ _ => [("tcp", address host config)]
  | _ => []
  end.
Proof.
  unfold setup_events, setup, dial_outcome.
  destruct (negb (KeyPath config =? "")%string).
  - destruct (os_ReadFile r (KeyPath config)) as [pem|e]; [|reflexivity].
    destruct (ssh_ParsePrivateKey r pem) as [signer|e]; [|reflexivity].
    destruct (ssh_Dial _ _ _ _); reflexivity.
  - destruct (negb (Password config =? "")%string); [|reflexivity].
    destruct (ssh_Dial _ _ _ _); reflexivity.
Qed.

Lemma command_events_track r client n cmd :
  fold_left (track r) (command_events r client (n, cmd)) (Some (n, None)) =
  Some (S n, None).
Proof.
  unfold command_events. cbn [fst snd fold_left track].
  destruct (ssh_NewSession r client n) as [session|e]; [|reflexivity].
  destruct (ssh_StdoutPipe r session) as [stdout|e];
    [destruct (ssh_Start r session cmd) as [e|]|];
    repeat (cbn [fold_left track]; rewrite ?Nat.eqb_refl); reflexivity.
Qed.

Lemma command_events_quiet r client ic :
  starts (command_events r client ic) =
    (if reaches_start r client ic then [snd ic] else []) /\
  closes (command_events r client ic) = [] /\
  sends (command_events r client ic) = [] /\
  dial_targets (command_events r client ic) = [] /\
  new_sessions (command_events r client ic) = 1.
Proof.
  unfold command_events, reaches_start, command_outcome.
  destruct (ssh_NewSession r client (fst ic)) as [session|e]; [|repeat split].
  destruct (ssh_StdoutPipe r session) as [stdout|e]; [|repeat split].
  destruct (ssh_Start r session (snd ic)) as [e|]; repeat split.
Qed.

Lemma numbered_indexed_from n commands : numbered n (indexed_from n commands).
Proof.
  unfold numbered, indexed_from. revert n.
  induction commands as [|cmd rest IH]; intros n; [reflexivity|].
  cbn [List.length seq combine map fst]. f_equal. apply IH.
Qed.

Lemma numbered_upto_abort r client n l : numbered n l -> numbered n (upto_abort r client l).
Proof.
  unfold numbered. revert n. induction l as [|ic l IH]; intros n H; [reflexivity|].
  cbn [map List.length seq] in H. inversion H as [[H1 H2]].
  cbn [upto_abort]. destruct (Inline.abort r client ic).
  - cbn [map List.length seq]. now rewrite H1.
  - cbn [map List.length seq]. rewrite H1. f_equal. apply IH. now rewrite <- H1.
Qed.

Lemma flat_map_track r client n l :
  numbered n l ->
  fold_left (track r) (flat_map (command_events r client) l) (Some (n, None)) =
  Some (n + List.length l, None).
Proof.
  unfold numbered. revert n. induction l as [|[k cmd] l IH]; intros n H.
  - cbn. f_equal. f_equal. lia.
  - cbn [map List.length seq fst] in H. inversion H as [[H1 H2]]. subst k.
    cbn [flat_map]. rewrite fold_left_app, command_events_track, (IH (S n) H2).
    cbn [List.length]. f_equal. f_equal. lia.
Qed.

Lemma flat_map_quiet r client l :
  starts (flat_map (command_events r client) l) =
    map snd (filter (reaches_start r client) l) /\
  closes (flat_map (command_events r client) l) = [] /\
  sends (flat_map (command_events r client) l) = [] /\
  dial_targets (flat_map (command_events r client) l) = [] /\
  new_sessions (flat_map (command_events r client) l) = List.length l.
Proof.
  induction l as [|ic l (IH1 & IH2 & IH3 & IH4 & IH5)]; [repeat split|].
  destruct (command_events_quiet r client ic) as (H1 & H2 & H3 & H4 & H5).
  cbn [flat_map filter].
  rewrite starts_app, closes_app, sends_app, dial_targets_app, new_sessions_app.
  rewrite H1, H2, H3, H4, H5, IH1, IH2, IH3, IH4, IH5.
  repeat split. destruct (reaches_start r client ic); reflexivity.
Qed.

Lemma upto_abort_prefix r client l :
  exists rest, l = upto_abort r client l ++ rest.
Proof.
  induction l as [|ic l [rest IH]]; [exists []; reflexivity|].
  cbn [upto_abort]. destruct (Inline.abort r client ic).
  - exists l. reflexivity.
  - exists rest. cbn [app]. now rewrite <- IH.
Qed.

Lemma upto_abort_all r client l :
  first_some (Inline.abort r client) l = None -> upto_abort r client l = l.
Proof.
  induction l as [|ic l IH]; [reflexivity|]. cbn [first_some upto_abort].
  destruct (Inline.abort r client ic); [discriminate|]. intros H. now rewrite IH.
Qed.

(** X7.  Session discipline, in both versions and whatever the host answers:
    following the calls of a host goroutine in order, a session is opened
    only when none is open, StdoutPipe, Start, Wait and Close are called only
    on the session that is open, the result is sent and the client closed
    only when no session is open, and at the end every session that was
    opened has been closed.  (No two commands share a session and no session
    leaks.) *)
Theorem X7_session_discipline (w : World) (config : SSHConfig) (commands : list string)
    (i : nat) (host : string) :
  disciplined (w i) (script Inline.goroutine w config commands i host) = true /\
  disciplined (w i) (script Refactored.goroutine w config commands i host) = true.
Proof.
  unfold disciplined, script.
  rewrite Inline_script, Refactored_script, !fold_left_app.
  destruct (setup_events_quiet (w i) config host) as (_ & _ & _ & _ & Hsetup).
  rewrite Hsetup.
  destruct (setup (w i) config host) as [|e|e|auth e|auth client]; try (split; reflexivity).
  rewrite !fold_left_app.
  rewrite (@flat_map_track (w i) client 0 (upto_abort (w i) client (indexed commands))
             (numbered_upto_abort (w i) client (numbered_indexed_from 0 commands))).
  rewrite (@flat_map_track (w i) client 0 (indexed commands)
             (numbered_indexed_from 0 commands)).
  split; reflexivity.
Qed.

(** The discipline is not empty: a trace that opens a second session while
    the first is open, or that leaves a session open, breaks it. *)
Example disciplined_rejects :
  disciplined Sample.healthy [EvNewSession 1; EvNewSession 1] = false /\
  disciplined Sample.healthy [EvNewSession 1; EvStdoutPipe 0; EvStart 0 "uptime"] = false /\
  disciplined Sample.healthy [EvNewSession 1; EvSessionClose 0; EvSessionClose 0] = false.
Proof. repeat split. Qed.

(** X8.  The result is sent exactly once and the connection is released
    afterwards: in both versions the goroutine of a connected host ends with
    the send of its result followed by the close of its client, and closes
    nothing before; the goroutine of a host that did not connect ends with
    the send and never closes a client. *)
Theorem X8_send_then_close (w : World) (config : SSHConfig) (commands : list string)
    (i : nat) (host : string) :
  (exists pre,
     script Inline.goroutine w config commands i host =
       pre ++ EvSend (Inline.report (w i) config commands host) ::
              match setup (w i) config host with
              | Connected _ client => [EvClientClose client]
              | _ => []
              end /\
     sends pre = [] /\ closes pre = []) /\
  (exists pre,
     script Refactored.goroutine w config commands i host =
       pre ++ EvSend (Refactored.report (w i) config commands host) ::
              match setup (w i) config host with
              | Connected _ client => [EvClientClose client]
              | _ => []
              end /\
     sends pre = [] /\ closes pre = []).
Proof.
  destruct (setup_events_quiet (w i) config host) as (_ & Hc & Hs & _ & _).
  unfold script. rewrite Inline_script, Refactored_script.
  destruct (setup (w i) config host) as [|e|e|auth e|auth client].
  1-4: split; exists (setup_events (w i) config host); auto.
  split.
  - exists (setup_events (w i) config host ++
            flat_map (command_events (w i) client)
              (upto_abort (w i) client (indexed commands))).
    destruct (flat_map_quiet (w i) client (upto_abort (w i) client (indexed commands)))
      as (_ & Hc' & Hs' & _ & _).
    rewrite <- app_assoc, sends_app, closes_app, Hc, Hs, Hc', Hs'. auto.
  - exists (setup_events (w i) config host ++
            flat_map (command_events (w i) client) (indexed commands)).
    destruct (flat_map_quiet (w i) client (indexed commands)) as (_ & Hc' & Hs' & _ & _).
    rewrite <- app_assoc, sends_app, closes_app, Hc, Hs, Hc', Hs'. auto.
Qed.

(** X9.  No retry and a fixed target: in both versions a host is dialled at
    most once, over "tcp", at "host:port" where the port is config.Port, or
    "22" when config.Port is empty; and it is not dialled at all when the
    key cannot be read or parsed or no credential is configured. *)
Theorem X9_single_dial (w : World) (config : SSHConfig) (commands : list string)
    (i : nat) (host : string) :
  let target :=
    ("tcp", host +:+ ":" +:+ (if (Port config =? "")%string then "22" else Port config)) in
  dial_targets (script Inline.goroutine w config commands i host) =
    match setup (w i) config host with
    | DialFails _ _ | Connected _ _ => [target]
    | _ => []
    end /\
  dial_targets (script Refactored.goroutine w config commands i host) =
    match setup (w i) config host with
    | DialFails _ _ | Connected _ _ => [target]
    | _ => []
    end.
Proof.
  cbv zeta. unfold script. rewrite Inline_script, Refactored_script, !dial_targets_app.
  rewrite setup_events_dial. unfold address.
  destruct (setup (w i) config host) as [|e|e|auth e|auth client];
    try (split; reflexivity).
  rewrite !dial_targets_app.
  destruct (flat_map_quiet (w i) client (upto_abort (w i) client (indexed commands)))
    as (_ & _ & _ & Hd1 & _).
  destruct (flat_map_quiet (w i) client (indexed commands)) as (_ & _ & _ & Hd2 & _).
  rewrite Hd1, Hd2. split; reflexivity.
Qed.

(** X10.  Which commands are attempted.  On a connected host the refactored
    version opens exactly one session per command, whatever fails, and
    starts, in list order, exactly the commands whose session and stdout
    pipe could be created.  The inline version does the same on the prefix
    of the command list that ends with the first command whose session or
    stdout pipe fails, and attempts nothing after it.  No command is retried
    or run out of order; a host that did not connect attempts nothing. *)
Theorem X10_commands_attempted (w : World) (config : SSHConfig) (commands : list string)
    (i : nat) (host : string) :
  match setup (w i) config host with
  | Connected _ client =>
      new_sessions (script Refactored.goroutine w config commands i host) =
        List.length commands /\
      starts (script Refactored.goroutine w config commands i host) =
        map snd (filter (reaches_start (w i) client) (indexed commands)) /\
      new_sessions (script Inline.goroutine w config commands i host) =
        List.length (upto_abort (w i) client (indexed commands)) /\
      starts (script Inline.goroutine w config commands i host) =
        map snd (filter (reaches_start (w i) client)
                   (upto_abort (w i) client (indexed commands))) /\
      (exists rest,
         indexed commands = upto_abort (w i) client (indexed commands) ++ rest) /\
      (first_some (Inline.abort (w i) client) (indexed commands) = None ->
       upto_abort (w i) client (indexed commands) = indexed commands)
  | _ =>
      new_sessions (script Refactored.goroutine w config commands i host) = 0 /\
      starts (script Refactored.goroutine w config commands i host) = [] /\
      new_sessions (script Inline.goroutine w config commands i host) = 0 /\
      starts (script Inline.goroutine w config commands i host) = []
  end.
Proof.
  destruct (setup_events_quiet (w i) config host) as (Hst & _ & _ & Hn & _).
  unfold script. rewrite Inline_script, Refactored_script.
  rewrite !new_sessions_app, !starts_app, Hst, Hn.
  destruct (setup (w i) config host) as [|e|e|auth e|auth client];
    try (repeat split; reflexivity).
  rewrite !new_sessions_app, !starts_app.
  destruct (flat_map_quiet (w i) client (upto_abort (w i) client (indexed commands)))
    as (Hs1 & _ & _ & _ & Hn1).
  destruct (flat_map_quiet (w i) client (indexed commands)) as (Hs2 & _ & _ & _ & Hn2).
  rewrite Hs1, Hs2, Hn1, Hn2. cbn [app starts]. rewrite !app_nil_r.
  change (new_sessions [EvSend (Refactored.report (w i) config commands host);
                        EvClientClose client]) with 0.
  change (new_sessions [EvSend (Inline.report (w i) config commands host);
                        EvClientClose client]) with 0.
  rewrite !Nat.add_0_r.
  assert (Hlen : List.length (indexed commands) = List.length commands).
  { unfold indexed, indexed_from. apply length_combine_seq. }
  rewrite Hlen.
  repeat split; auto using upto_abort_prefix, upto_abort_all.
Qed.

(** X11.  When the terminal error is set.  In the refactored version the
    result of a host has its terminal error set exactly when the host did
    not connect, and the error text always begins with "dial <host>: ".  In
    the inline version it is set exactly when the host did not connect or
    the session or stdout pipe of one of its commands could not be
    created. *)
Theorem X11_terminal_error (w : World) (config : SSHConfig) (commands : list string)
    (i : nat) (host : string) :
  (exists r2,
     sends (script Refactored.goroutine w config commands i host) = [r2] /\
     (Error r2 = None <-> host_level_failure (w i) config host = false) /\
     (forall e, Error r2 = Some e -> exists x, e = "dial " +:+ host +:+ ": " +:+ x)) /\
  (exists r1,
     sends (script Inline.goroutine w config commands i host) = [r1] /\
     (Error r1 = None <->
      exists auth client,
        setup (w i) config host = Connected auth client /\
        first_some (Inline.abort (w i) client) (indexed commands) = None)).
Proof.
  split.
  - exists (Refactored.report (w i) config commands host).
    split; [apply Refactored_sends|].
    unfold Refactored.report, host_level_failure.
    destruct (setup (w i) config host) as [|e|e|auth e|auth client]; cbn [Error failed];
      (split; [split; intros; congruence|]); intros x Hx; inversion Hx.
    + exists "no auth method". reflexivity.
    + exists ("read key: " +:+ e). reflexivity.
    + exists ("parse key: " +:+ e). reflexivity.
    + exists e. reflexivity.
  - exists (Inline.report (w i) config commands host).
    split; [apply Inline_sends|].
    unfold Inline.report.
    destruct (setup (w i) config host) as [|e|e|auth e|auth client]; cbn [Error failed];
      try (split; [discriminate | intros (a & c & H & _); discriminate]).
    destruct (first_some (Inline.abort (w i) client) (indexed commands)) as [e|] eqn:Hab;
      cbn [Error failed].
    + split; [discriminate|]. intros (a & c & H & Hnone). inversion H; subst.
      rewrite Hab in Hnone. discriminate.
    + split; [|reflexivity]. intros _. exists auth, client. auto.
Qed.

Lemma calls_app t1 t2 : calls (t1 ++ t2) = calls t1 ++ calls t2.
Proof. apply filter_app. Qed.

(** X12.  Same calls.  On a host that does not connect, or that connects and
    gets a session and a stdout pipe for every command, the two versions
    make the same calls on the outside world, in the same order, up to and
    including the close of the client: they differ only in the result they
    send. *)
Theorem X12_same_calls (w : World) (config : SSHConfig) (commands : list string)
    (i : nat) (host : string) :
  (forall auth client,
     setup (w i) config host = Connected auth client ->
     first_some (Inline.abort (w i) client) (indexed commands) = None) ->
  calls (script Inline.goroutine w config commands i host) =
  calls (script Refactored.goroutine w config commands i host).
Proof.
  intros Hno. unfold script. rewrite Inline_script, Refactored_script, !calls_app.
  f_equal. destruct (setup (w i) config host) as [|e|e|auth e|auth client]; try reflexivity.
  rewrite (upto_abort_all _ _ _ (Hno auth client eq_refl)). rewrite !calls_app.
  reflexivity.
Qed.

Lemma X12_witness :
  (forall auth client,
     setup (Sample.everywhere Sample.no_second_start 0)
       (Sample.config ["a"] "" "/key") "a" = Connected auth client ->
     first_some (Inline.abort (Sample.everywhere Sample.no_second_start 0) client)
       (indexed Sample.commands) = None) /\
  calls (script Inline.goroutine (Sample.everywhere Sample.no_second_start)
           (Sample.config ["a"] "" "/key") Sample.commands 0 "a") =
  calls (script Refactored.goroutine (Sample.everywhere Sample.no_second_start)
           (Sample.config ["a"] "" "/key") Sample.commands 0 "a").
Proof.
  assert (H : forall auth client,
     setup (Sample.everywhere Sample.no_second_start 0)
       (Sample.config ["a"] "" "/key") "a" = Connected auth client ->
     first_some (Inline.abort (Sample.everywhere Sample.no_second_start 0) client)
       (indexed Sample.commands) = None).
  { intros auth client Hc. inversion Hc. reflexivity. }
  split; [exact H|].
  exact (@X12_same_calls (Sample.everywhere Sample.no_second_start)
           (Sample.config ["a"] "" "/key") Sample.commands 0 "a" H).
Defined.

(** ** main *)

Lemma main_prepare_calls sys flags config commands :
  main_prepare sys flags = Calls config commands <->
  flag_user flags <> "" /\
  exists content inventory,
    sys_ReadFile sys (flag_inventory flags) = Ok content /\
    json_Unmarshal sys content = Ok inventory /\
    config = main_config flags inventory /\ commands = main_commands.
Proof.
  unfold main_prepare.
  destruct (String.eqb_spec (flag_user flags) "") as [Hu|Hu].
  - split; [discriminate | intros [H _]; contradiction].
  - destruct (sys_ReadFile sys (flag_inventory flags)) as [content|e].
    + destruct (json_Unmarshal sys content) as [inventory|e] eqn:Hj.
      * split.
        -- intros H. inversion H. split; [assumption|]. exists content, inventory. auto.
        -- intros (_ & c & inv & Hc & Hi & -> & ->). inversion Hc; subst.
           rewrite Hj in Hi. inversion Hi. reflexivity.
      * split; [discriminate|].
        intros (_ & c & inv & Hc & Hi & _). inversion Hc; subst.
        rewrite Hj in Hi. discriminate.
    + split; [discriminate|]. intros (_ & c & inv & Hc & _). discriminate.
Qed.

Lemma main_prepare_exits sys flags message code :
  main_prepare sys flags = Exits message code -> code = 1%Z /\ message <> "".
Proof.
  unfold main_prepare.
  destruct (flag_user flags =? "")%string.
  - intros H. inversion H. split; [reflexivity | discriminate].
  - destruct (sys_ReadFile sys (flag_inventory flags)) as [content|e].
    + destruct (json_Unmarshal sys content) as [inventory|e]; [discriminate|].
      intros H. inversion H. split; [reflexivity | discriminate].
    + intros H. inversion H. split; [reflexivity | discriminate].
Qed.

(** X13.  The exit code of main.  When flag.Parse ends the process, main
    ends there, with the code and the message of the flag package, and
    nothing on stdout.  When flag.Parse returns, every outcome of main has
    exit code 0 or 1: it is 0 exactly when a user was given and the
    inventory file could be read and decoded, and then nothing is written to
    stderr; otherwise it is 1, with a message on stderr and nothing on
    stdout.  Host failures never change the exit code. *)
Theorem X13_main_exit_code (w : World) (sys : System) (parsed : Parsed) (out : Outcome) :
  main Inline.ExecuteRemoteCommands w sys parsed out \/
  main Refactored.ExecuteRemoteCommands w sys parsed out ->
  match parsed with
  | ParseExits message code =>
      out = {| stdout := ""; stderr := message; exit_code := code |}
  | ParseReturns flags =>
      (exit_code out = 0%Z \/ exit_code out = 1%Z) /\
      (exit_code out = 0%Z <->
       flag_user flags <> "" /\
       exists content inventory,
         sys_ReadFile sys (flag_inventory flags) = Ok content /\
         json_Unmarshal sys content = Ok inventory) /\
      (exit_code out = 0%Z -> stderr out = "") /\
      (exit_code out = 1%Z -> stdout out = "" /\ stderr out <> "")
  end.
Proof.
  destruct parsed as [message code|flags]; cbv beta iota delta [main]; [tauto|].
  destruct (main_prepare sys flags) as [message code|config commands] eqn:Hp.
  - intros Hout. assert (out = {| stdout := ""; stderr := message; exit_code := code |})
      as -> by tauto.
    destruct (main_prepare_exits _ _ Hp) as [-> Hm]. cbn [exit_code stdout stderr].
    split; [now right|]. split; [|split; [discriminate | auto]].
    split; [discriminate|]. intros (Hu & content & inventory & Hc & Hi).
    assert (Hcalls : main_prepare sys flags =
                     Calls (main_config flags inventory) main_commands).
    { apply main_prepare_calls. split; [assumption|]. exists content, inventory. auto. }
    rewrite Hp in Hcalls. discriminate.
  - apply main_prepare_calls in Hp as (Hu & content & inventory & Hc & Hi & _ & _).
    intros Hout.
    assert (Hex : exists results,
               out = {| stdout := print_results results; stderr := ""; exit_code := 0 |}).
    { destruct Hout as [(res & _ & ->)|(res & _ & ->)]; eauto. }
    destruct Hex as [results ->]. cbn [exit_code stdout stderr].
    split; [now left|]. split; [|split; [reflexivity | discriminate]].
    split; [|reflexivity]. intros _. split; [assumption|]. exists content, inventory. auto.
Qed.

Lemma X13_witness :
  (main Inline.ExecuteRemoteCommands (Sample.everywhere Sample.healthy)
     SampleSystem.two_hosts (ParseReturns (SampleSystem.flags "/key" ""))
     {| stdout := "";
        stderr := "Error: SSH user must be specified with --user" +:+ nl;
        exit_code := 1 |} /\
   (exit_code {| stdout := "";
                 stderr := "Error: SSH user must be specified with --user" +:+ nl;
                 exit_code := 1 |} = 0%Z <->
    flag_user (SampleSystem.flags "/key" "") <> "" /\
    exists content inventory,
      sys_ReadFile SampleSystem.two_hosts
        (flag_inventory (SampleSystem.flags "/key" "")) = Ok content /\
      json_Unmarshal SampleSystem.two_hosts content = Ok inventory)) /\
  (main Refactored.ExecuteRemoteCommands (Sample.everywhere Sample.healthy)
     SampleSystem.two_hosts SampleSystem.undefined_flag
     {| stdout := ""; stderr := "flag provided but not defined: -port"; exit_code := 2 |} /\
   {| stdout := ""; stderr := "flag provided but not defined: -port"; exit_code := 2 |} =
   {| stdout := ""; stderr := "flag provided but not defined: -port"; exit_code := 2 |}).
Proof.
  assert (H : main Inline.ExecuteRemoteCommands (Sample.everywhere Sample.healthy)
                SampleSystem.two_hosts (ParseReturns (SampleSystem.flags "/key" ""))
                {| stdout := "";
                   stderr := "Error: SSH user must be specified with --user" +:+ nl;
                   exit_code := 1 |}) by reflexivity.
  assert (H2 : main Refactored.ExecuteRemoteCommands (Sample.everywhere Sample.healthy)
                 SampleSystem.two_hosts SampleSystem.undefined_flag
                 {| stdout := ""; stderr := "flag provided but not defined: -port";
                    exit_code := 2 |}) by reflexivity.
  split.
  - split; [exact H|].
    exact (proj1 (proj2 (@X13_main_exit_code (Sample.everywhere Sample.healthy)
                           SampleSystem.two_hosts
                           (ParseReturns (SampleSystem.flags "/key" "")) _ (or_introl H)))).
  - split; [exact H2|].
    exact (@X13_main_exit_code (Sample.everywhere Sample.healthy)
             SampleSystem.two_hosts SampleSystem.undefined_flag _ (or_intror H2)).
Defined.

(** X14.  When main gets as far as the hosts, it prints exactly one block
    per host of the inventory, in the order in which the results arrived:
    stdout is the concatenation of the blocks of a result list whose host
    names are the inventory's hosts up to order. *)
Theorem X14_main_prints_every_host (w : World) (sys : System) (flags : Flags)
    (out : Outcome) (content : string) (inventory : Inventory) :
  flag_user flags <> "" ->
  sys_ReadFile sys (flag_inventory flags) = Ok content ->
  json_Unmarshal sys content = Ok inventory ->
  main Inline.ExecuteRemoteCommands w sys (ParseReturns flags) out \/
  main Refactored.ExecuteRemoteCommands w sys (ParseReturns flags) out ->
  exit_code out = 0%Z /\
  exists results,
    stdout out = print_results results /\
    List.length results = List.length (inv_Hosts inventory) /\
    Permutation (map Hostname results) (inv_Hosts inventory).
Proof.
  intros Hu Hc Hi Hout.
  assert (Hp : main_prepare sys flags = Calls (main_config flags inventory) main_commands).
  { apply main_prepare_calls. split; [assumption|]. exists content, inventory. auto. }
  cbv beta iota delta [main] in Hout. rewrite Hp in Hout.
  destruct Hout as [(res & Hres & ->)|(res & Hres & ->)]; cbn [exit_code stdout];
    (split; [reflexivity|]); exists res; (split; [reflexivity|]).
  - destruct (Inline_returns_shape Hres) as (Hl & Hperm & _). auto.
  - destruct (Refactored_returns_shape Hres) as (Hl & Hperm & _). auto.
Qed.

Lemma X14_witness :
  flag_user (SampleSystem.flags "/key" "ops") <> "" /\
  sys_ReadFile SampleSystem.two_hosts (flag_inventory (SampleSystem.flags "/key" "ops")) =
    Ok "{hosts}" /\
  json_Unmarshal SampleSystem.two_hosts "{hosts}" = Ok {| inv_Hosts := ["a"; "b"] |} /\
  main Refactored.ExecuteRemoteCommands (Sample.first_host Sample.unreachable)
    SampleSystem.two_hosts (ParseReturns (SampleSystem.flags "/key" "ops"))
    {| stdout :=
         print_results
           [failed "a" "dial a: connection refused";
            {| Hostname := "b";
               Output := join (map (fun cmd => labeled_output cmd "out") main_commands);
               Error := None |}];
       stderr := ""; exit_code := 0 |} /\
  exit_code
    {| stdout :=
         print_results
           [failed "a" "dial a: connection refused";
            {| Hostname := "b";
               Output := join (map (fun cmd => labeled_output cmd "out") main_commands);
               Error := None |}];
       stderr := ""; exit_code := 0 |} = 0%Z.
Proof.
  assert (Hu : flag_user (SampleSystem.flags "/key" "ops") <> "") by discriminate.
  assert (Hm : main Refactored.ExecuteRemoteCommands (Sample.first_host Sample.unreachable)
    SampleSystem.two_hosts (ParseReturns (SampleSystem.flags "/key" "ops"))
    {| stdout :=
         print_results
           [failed "a" "dial a: connection refused";
            {| Hostname := "b";
               Output := join (map (fun cmd => labeled_output cmd "out") main_commands);
               Error := None |}];
       stderr := ""; exit_code := 0 |}).
  { exists [failed "a" "dial a: connection refused";
            {| Hostname := "b";
               Output := join (map (fun cmd => labeled_output cmd "out") main_commands);
               Error := None |}].
    split; [|reflexivity].
    apply Refactored_execute_returns with (fuel := 200). vm_compute. split; reflexivity. }
  split; [exact Hu|]. split; [reflexivity|]. split; [reflexivity|]. split; [exact Hm|].
  exact (proj1 (@X14_main_prints_every_host (Sample.first_host Sample.unreachable)
                  SampleSystem.two_hosts (SampleSystem.flags "/key" "ops") _
                  "{hosts}" {| inv_Hosts := ["a"; "b"] |} Hu eq_refl eq_refl
                  (or_intror Hm))).
Defined.

Lemma reports_no_credential report (note : string -> string) w config commands :
  (forall r host, report r config commands host = failed host (note host)) ->
  reports report w config commands = map (fun host => failed host (note host)) (Hosts config).
Proof.
  intros H. unfold reports, indexed, indexed_from.
  rewrite <- (map_snd_combine_seq (Hosts config) 0) at 3. rewrite map_map.
  apply map_ext. intros [i host]. apply H.
Qed.

(** X15.  main never sets a password, so without --key no host can be
    reached: main still ends with exit code 0, nothing is dialled, and the
    block of every host of the inventory shows the terminal error
    "no auth method" (inline version) or "dial <host>: no auth method"
    (refactored version). *)
Theorem X15_main_without_key (w : World) (sys : System) (flags : Flags)
    (out : Outcome) (content : string) (inventory : Inventory) :
  flag_key flags = "" ->
  flag_user flags <> "" ->
  sys_ReadFile sys (flag_inventory flags) = Ok content ->
  json_Unmarshal sys content = Ok inventory ->
  (main Inline.ExecuteRemoteCommands w sys (ParseReturns flags) out ->
   exit_code out = 0%Z /\
   exists results,
     stdout out = print_results results /\
     Permutation results
       (map (fun host => failed host "no auth method") (inv_Hosts inventory))) /\
  (main Refactored.ExecuteRemoteCommands w sys (ParseReturns flags) out ->
   exit_code out = 0%Z /\
   exists results,
     stdout out = print_results results /\
     Permutation results
       (map (fun host => failed host ("dial " +:+ host +:+ ": no auth method"))
          (inv_Hosts inventory))) /\
  (forall i host,
     dial_targets (script Inline.goroutine w (main_config flags inventory)
                     main_commands i host) = [] /\
     dial_targets (script Refactored.goroutine w (main_config flags inventory)
                     main_commands i host) = []).
Proof.
  intros Hk Hu Hc Hi.
  assert (Hp : main_prepare sys flags = Calls (main_config flags inventory) main_commands).
  { apply main_prepare_calls. split; [assumption|]. exists content, inventory. auto. }
  assert (Hno : forall r host, setup r (main_config flags inventory) host = NoCredential).
  { intros r host. apply setup_no_credential; [exact Hk | reflexivity]. }
  cbv beta iota delta [main]. rewrite Hp. split; [|split].
  - intros (res & Hres & ->). cbn [exit_code stdout]. split; [reflexivity|].
    exists res. split; [reflexivity|].
    apply Inline_returns_reports in Hres. rewrite Hres.
    rewrite (@reports_no_credential Inline.report (fun _ => "no auth method")); [reflexivity|].
    intros r host. unfold Inline.report. now rewrite Hno.
  - intros (res & Hres & ->). cbn [exit_code stdout]. split; [reflexivity|].
    exists res. split; [reflexivity|].
    apply Refactored_returns_reports in Hres. rewrite Hres.
    rewrite (@reports_no_credential Refactored.report
               (fun host => "dial " +:+ host +:+ ": no auth method")); [reflexivity|].
    intros r host. unfold Refactored.report. now rewrite Hno.
  - intros i host. unfold script.
    rewrite Inline_script, Refactored_script, !dial_targets_app, setup_events_dial, Hno.
    split; reflexivity.
Qed.

Lemma X15_witness :
  flag_key (SampleSystem.flags "" "ops") = "" /\
  flag_user (SampleSystem.flags "" "ops") <> "" /\
  main Inline.ExecuteRemoteCommands (Sample.everywhere Sample.healthy)
    SampleSystem.two_hosts (ParseReturns (SampleSystem.flags "" "ops"))
    {| stdout := print_results [failed "a" "no auth method"; failed "b" "no auth method"];
       stderr := ""; exit_code := 0 |} /\
  exists results,
    stdout
      {| stdout := print_results [failed "a" "no auth method"; failed "b" "no auth method"];
         stderr := ""; exit_code := 0 |} = print_results results /\
    Permutation results
      (map (fun host => failed host "no auth method") (inv_Hosts {| inv_Hosts := ["a"; "b"] |})).
Proof.
  assert (Hu : flag_user (SampleSystem.flags "" "ops") <> "") by discriminate.
  assert (Hm : main Inline.ExecuteRemoteCommands (Sample.everywhere Sample.healthy)
    SampleSystem.two_hosts (ParseReturns (SampleSystem.flags "" "ops"))
    {| stdout := print_results [failed "a" "no auth method"; failed "b" "no auth method"];
       stderr := ""; exit_code := 0 |}).
  { exists [failed "a" "no auth method"; failed "b" "no auth method"].
    split; [|reflexivity].
    apply Inline_execute_returns with (fuel := 200). vm_compute. split; reflexivity. }
  split; [reflexivity|]. split; [exact Hu|]. split; [exact Hm|].
  exact (proj2 (proj1 (@X15_main_without_key (Sample.everywhere Sample.healthy)
                         SampleSystem.two_hosts (SampleSystem.flags "" "ops") _
                         "{hosts}" {| inv_Hosts := ["a"; "b"] |} eq_refl Hu eq_refl eq_refl)
                  Hm)).
Defined.



